(** * yet-another-gantt: bar geometry and dependency arrows

    A shallow embedding of [src/bar.js] (the geometry part of class [Bar]:
    [prepare_values], [draw_bar], [calculate_progress_width]) and of
    [src/arrow.js] ([Arrow.calculate_path]).

    JavaScript numbers are modelled as exact rationals ([Q]); floating-point
    rounding, infinities and the textual rendering of numbers inside the SVG
    path string are outside that model.  The two loops, whose leaving depends
    on rounding, are embedded on IEEE 754 doubles as well (module [Double]).
    The path string is modelled as the list of its commands with their
    numeric arguments. *)

From Stdlib Require Import PrimFloat.
From Stdlib Require Import String.
From Stdlib Require Import QArith Qround Qminmax ZArith List Bool Lia Lqa.
Import ListNotations.
Open Scope Q_scope.

(** ** JavaScript values and comparisons *)

Module Js.

(** [x < y], [x <= y], [x > y], [x >= y] on numbers. *)
Definition ltb (x y : Q) : bool := negb (Qle_bool y x).
Definition leb (x y : Q) : bool := Qle_bool x y.
Definition gtb (x y : Q) : bool := ltb y x.
Definition geb (x y : Q) : bool := leb y x.

(** The values a numeric task field can hold when it reaches the chart:
    a number, or one of the non-numbers [undefined] (field absent), [null]
    and [NaN]. *)
Inductive value : Type :=
| undefined
| null
| NaN
| num (q : Q).

(** [!v]: true on [undefined], [null], [NaN] and [0]. *)
Definition not (v : value) : bool :=
  match v with
  | num q => Qeq_bool q 0
  | _ => true
  end.

(** [ToNumber]: [undefined] and [NaN] give [NaN] ([None]), [null] gives 0. *)
Definition to_number (v : value) : option Q :=
  match v with
  | undefined | NaN => None
  | null => Some 0
  | num q => Some q
  end.

(** [v < q] and [v > q] for a value against a number literal; a comparison
    with [NaN] is false. *)
Definition value_ltb (v : value) (q : Q) : bool :=
  match to_number v with
  | Some a => ltb a q
  | None => false
  end.

Definition value_gtb (v : value) (q : Q) : bool :=
  match to_number v with
  | Some a => gtb a q
  | None => false
  end.

(** A boolean used as a summand: [true] is 1 and [false] is 0. *)
Definition of_bool (b : bool) : Q := if b then 1 else 0.

End Js.

(** ** The chart objects read by bars and arrows *)

(** [gantt.options]. *)
Record Options : Type := mkOptions {
  padding : Q;
  arrow_curve : Q;
  bar_height : Q;
  bar_corner_radius : Q
}.

(** [gantt.config].  [ignored_positions] is the array of the left pixel
    edges of the ignored columns. *)
Record Config : Type := mkConfig {
  header_height : Q;
  column_width : Q;
  step : Q;
  ignored_positions : list Q
}.

(** A date, as the millisecond count a JavaScript [Date] holds. *)
Definition Date : Type := Z.

Record Gantt : Type := mkGantt {
  options : Options;
  config : Config;
  gantt_start : Date
}.

(** The task object shared between the chart and its bar. *)
Record Task : Type := mkTask {
  task_start : Date;
  task_end : Date;
  task__start : Date;
  task__end : Date;
  task_progress : Js.value;
  task__index : Z;
  task_invalid : bool
}.

(** The attributes of an SVG [rect], read back through [getX], [getY],
    [getWidth], [getHeight]. *)
Record Rect : Type := mkRect {
  getX : Q;
  getY : Q;
  getWidth : Q;
  getHeight : Q
}.

(** Modelled from the spec: [gantt.get_ignored_region(pos)] belongs to the
    chart class, whose file is not among the sources.  An ignored position
    [val] stands for the pixel columns [[val, val + column_width)] (the spec's
    region [[60,90)] for one 30-pixel day); the regions [pos] lies inside are
    returned. *)
Definition get_ignored_region (g : Gantt) (pos : Q) : list Q :=
  filter (fun val => Js.leb val pos && Js.ltb pos (val + column_width (config g)))
         (ignored_positions (config g)).

(** ** [src/bar.js]: class [Bar] *)

Module Bar.

(** The fields of a bar that the geometry code reads and writes.  [dbar] is
    the [$bar] rectangle created by [draw_bar]. *)
Record t : Type := mk {
  gantt : Gantt;
  task : Task;
  invalid : bool;
  height : Q;
  image_size : Q;
  x : Q;
  y : Q;
  duration : Q;
  corner_radius : Q;
  width : Q;
  dbar : Rect;
  progress_width : Js.value
}.

Section Geometry.

(** [date_utils.diff(a, b, gantt.config.unit)]: the calendar arithmetic is an
    external collaborator. *)
Variable date_diff : Date -> Date -> Q.

(** Modelled from the spec: [compute_x] is in the part of [bar.js] that is not
    among the sources.  The pixel offset is the date distance from the axis
    start to the task start, divided by the step, times the column width (the
    same expression [draw_progress_bar] uses for the date highlight). *)
Definition compute_x (g : Gantt) (tk : Task) : Q :=
  date_diff (task__start tk) (gantt_start g) / step (config g)
  * column_width (config g).

(** Modelled from the spec: [compute_y] is in the part of [bar.js] that is not
    among the sources.
    [y = header_height + (padding + bar_height) * index + padding / 2]. *)
Definition compute_y (g : Gantt) (tk : Task) : Q :=
  header_height (config g)
  + (padding (options g) + bar_height (options g)) * inject_Z (task__index tk)
  + padding (options g) / 2.

(** Modelled from the spec: [compute_duration] is in the part of [bar.js] that
    is not among the sources.  The width is computed like [x], from the task
    start to the task end; [prepare_values] multiplies the duration by the
    column width.  It is not negative as long as the task ends after it
    starts, which loading a task checks. *)
Definition compute_duration (g : Gantt) (tk : Task) : Q :=
  date_diff (task__end tk) (task__start tk) / step (config g).

(** The two statements of [prepare_values] that write [task.progress]. *)
Definition clamp_progress (p : Js.value) : Js.value :=
  let p1 := if Js.not p || Js.value_ltb p 0 then Js.num 0 else p in
  if Js.value_gtb p1 100 then Js.num 100 else p1.

Definition prepare_values (b : t) : t :=
  let g := gantt b in
  let tk := task b in
  let invalid' := task_invalid tk in
  let height' := bar_height (options g) in
  let image_size' := height' - 5 in
  let tk1 :=
    mkTask (task_start tk) (task_end tk) (task_start tk) (task_end tk)
           (task_progress tk) (task__index tk) (task_invalid tk) in
  let x' := compute_x g tk1 in
  let y' := compute_y g tk1 in
  let duration' := compute_duration g tk1 in
  let corner_radius' := bar_corner_radius (options g) in
  let width' := column_width (config g) * duration' in
  let tk2 :=
    mkTask (task_start tk1) (task_end tk1) (task__start tk1) (task__end tk1)
           (clamp_progress (task_progress tk1)) (task__index tk1)
           (task_invalid tk1) in
  mk g tk2 invalid' height' image_size' x' y' duration' corner_radius' width'
     (dbar b) (progress_width b).

(** [draw_bar]: the [$bar] rectangle gets the bar's position and size. *)
Definition draw_bar (b : t) : t :=
  mk (gantt b) (task b) (invalid b) (height b) (image_size b) (x b) (y b)
     (duration b) (corner_radius b) (width b)
     (mkRect (x b) (y b) (width b) (height b)) (progress_width b).

(** The [reduce] over [ignored_positions]: the number of ignored positions
    [val] with [val >= lo && val < hi]. *)
Definition count_ignored (g : Gantt) (lo hi : Q) : Q :=
  fold_left (fun acc val => acc + Js.of_bool (Js.geb val lo && Js.ltb val hi))
            (ignored_positions (config g)) 0.

(** The [while (ignored_regions.length)] loop; [None] when the fuel runs
    out before the loop is left. *)
Fixpoint extend_over_ignored (fuel : nat) (g : Gantt) (bx pw : Q) : option Q :=
  match fuel with
  | O => None
  | S fuel' =>
      match get_ignored_region g (bx + pw) with
      | [] => Some pw
      | _ :: _ =>
          extend_over_ignored fuel' g bx (pw + column_width (config g))
      end
  end.

(** [calculate_progress_width] on a numeric progress [p]. *)
Definition progress_width_of (fuel : nat) (g : Gantt) (bx w p : Q) : option Q :=
  let ignored_end := bx + w in
  let total_ignored_area :=
    count_ignored g bx ignored_end * column_width (config g) in
  let progress_width := ((w - total_ignored_area) * p) / 100 in
  let progress_end := bx + progress_width in
  let total_ignored_progress :=
    count_ignored g bx progress_end * column_width (config g) in
  let progress_width := progress_width + total_ignored_progress in
  extend_over_ignored fuel g bx progress_width.

(** [calculate_progress_width]: the new bar (its [progress_width] written) and
    the returned value.  A progress that is not a number makes every
    comparison false, and the result is [NaN]. *)
Definition calculate_progress_width (fuel : nat) (b : t)
  : option (t * Js.value) :=
  let r :=
    match Js.to_number (task_progress (task b)) with
    | None => Some Js.NaN
    | Some p =>
        option_map Js.num
          (progress_width_of fuel (gantt b) (x b) (getWidth (dbar b)) p)
    end in
  option_map
    (fun v =>
       (mk (gantt b) (task b) (invalid b) (height b) (image_size b) (x b)
           (y b) (duration b) (corner_radius b) (width b) (dbar b) v, v))
    r.

(** [draw_progress_bar], as far as the bar's values go: nothing for an
    invalid task, else [progress_width] is calculated. *)
Definition draw_progress_bar (fuel : nat) (b : t) : option t :=
  if invalid b then Some b
  else option_map fst (calculate_progress_width fuel b).

(** The geometry pass of [refresh]: [prepare_values], then [draw_bar] and
    [draw_progress_bar]. *)
Definition geometry (fuel : nat) (b : t) : option t :=
  draw_progress_bar fuel (draw_bar (prepare_values b)).

(** The [Bar] view of the spec: [x], [y], [width], [height] and
    [progress_width]. *)
Definition view (b : t) : Q * Q * Q * Q * Js.value :=
  (x b, y b, width b, height b, progress_width b).

End Geometry.

End Bar.

(** ** [src/arrow.js]: class [Arrow] *)

Module Arrow.

(** The commands of the SVG path string an arrow is drawn with. *)
Inductive command : Type :=
| MoveTo (x y : Q)                              (* M x y *)
| VertBy (dy : Q)                               (* v dy *)
| ArcBy (rx ry : Q) (rot large sweep : Z) (dx dy : Q)
                                                (* a rx ry rot large sweep dx dy *)
| HorizTo (x : Q)                               (* H x *)
| VertTo (y : Q)                                (* V y *)
| LineTo (x y : Q)                              (* L x y *)
| MoveBy (dx dy : Q)                            (* m dx dy *)
| LineBy (dx dy : Q).                           (* l dx dy *)

Record t : Type := mk {
  gantt : Gantt;
  from_task : Bar.t;
  to_task : Bar.t;
  path : list command
}.

(** The values of the local variables when the path shape is chosen. *)
Record locals : Type := mkLocals {
  start_x : Q;
  start_y : Q;
  end_x : Q;
  end_y : Q;
  from_is_below_to : bool;
  curve : Q;
  clockwise : Z;
  curve_y : Q
}.

(** The closure [condition], at the current [start_x]. *)
Definition condition (a : t) (sx : Q) : bool :=
  Js.ltb (getX (Bar.dbar (to_task a))) (sx + padding (options (gantt a)))
  && Js.gtb sx (getX (Bar.dbar (from_task a)) + padding (options (gantt a))).

(** [while (condition()) start_x -= 10;] with [None] when the fuel runs out
    before the loop is left. *)
Fixpoint adjust_start_x (fuel : nat) (a : t) (sx : Q) : option Q :=
  match fuel with
  | O => None
  | S fuel' =>
      if condition a sx then adjust_start_x fuel' a (sx - 10) else Some sx
  end.

(** The value [start_x] is initialised with. *)
Definition initial_start_x (a : t) : Q :=
  getX (Bar.dbar (from_task a)) + getWidth (Bar.dbar (from_task a)) / 2.

(** The statements between the loop and the choice of the shape: the last
    step back of [start_x], the end points and the curve parameters. *)
Definition locals_after (a : t) (sx : Q) : locals :=
  let g := gantt a in
  let sx := sx - 10 in
  let sy :=
    header_height (config g)
    + bar_height (options g)
    + (padding (options g) + bar_height (options g))
      * inject_Z (task__index (Bar.task (from_task a)))
    + padding (options g) / 2 in
  let ex := getX (Bar.dbar (to_task a)) - 13 in
  let ey :=
    header_height (config g)
    + bar_height (options g) / 2
    + (padding (options g) + bar_height (options g))
      * inject_Z (task__index (Bar.task (to_task a)))
    + padding (options g) / 2 in
  let below :=
    (task__index (Bar.task (from_task a))
     >? task__index (Bar.task (to_task a)))%Z in
  let cv := arrow_curve (options g) in
  let cw := if below then 1%Z else 0%Z in
  let cy := if below then - cv else cv in
  mkLocals sx sy ex ey below cv cw cy.

(** The first part of [calculate_path], up to the choice of the shape. *)
Definition calculate_locals (fuel : nat) (a : t) : option locals :=
  option_map (locals_after a) (adjust_start_x fuel a (initial_start_x a)).

(** The test that selects the backward shape. *)
Definition is_backward (a : t) : bool :=
  Js.leb (getX (Bar.dbar (to_task a)))
         (getX (Bar.dbar (from_task a)) + padding (options (gantt a))).

(** The arrow head both shapes end with. *)
Definition arrow_head : list command :=
  [MoveBy (-5) (-5); LineBy 5 5; LineBy (-5) 5].

(** The backward branch: the values of [down_1], [curve] and [curve_y] after
    the inner [if]. *)
Definition backward_curve (a : t) (lc : locals) : Q * Q * Q :=
  let down_1 := padding (options (gantt a)) / 2 - curve lc in
  if Js.ltb down_1 0 then
    let cv := padding (options (gantt a)) / 2 in
    (0, cv, if from_is_below_to lc then - cv else cv)
  else (down_1, curve lc, curve_y lc).

Definition backward_path (a : t) (lc : locals) : list command :=
  let '(down_1, cv, cy) := backward_curve a lc in
  let down_2 :=
    getY (Bar.dbar (to_task a)) + getHeight (Bar.dbar (to_task a)) / 2 - cy in
  let left := getX (Bar.dbar (to_task a)) - padding (options (gantt a)) in
  [ MoveTo (start_x lc) (start_y lc);
    VertBy down_1;
    ArcBy cv cv 0 0 1 (- cv) cv;
    HorizTo left;
    ArcBy cv cv 0 0 (clockwise lc) (- cv) cy;
    VertTo down_2;
    ArcBy cv cv 0 0 (clockwise lc) cv cy;
    LineTo (end_x lc) (end_y lc) ] ++ arrow_head.

(** The forward branch: [curve] after its [if]. *)
Definition forward_curve (lc : locals) : Q :=
  if Js.ltb (end_x lc) (start_x lc + curve lc)
  then end_x lc - start_x lc
  else curve lc.

Definition forward_path (lc : locals) : list command :=
  let cv := forward_curve lc in
  let offset := if from_is_below_to lc then end_y lc + cv else end_y lc - cv in
  [ MoveTo (start_x lc) (start_y lc);
    VertTo offset;
    ArcBy cv cv 0 0 (clockwise lc) cv cv;
    LineTo (end_x lc) (end_y lc) ] ++ arrow_head.

(** The second part of [calculate_path]: the path for the chosen shape. *)
Definition path_of (a : t) (lc : locals) : list command :=
  if is_backward a then backward_path a lc else forward_path lc.

(** [calculate_path]: the arrow with its [path] written. *)
Definition calculate_path (fuel : nat) (a : t) : option t :=
  option_map
    (fun lc => mk (gantt a) (from_task a) (to_task a) (path_of a lc))
    (calculate_locals fuel a).

(** Fuel that lets the [start_x] loop run to its end: one more than the
    number of 10-pixel steps between the initial [start_x] and
    [from.x + padding]. *)
Definition start_x_fuel (a : t) : nat :=
  S (Z.to_nat
       (Qceiling
          ((initial_start_x a
            - (getX (Bar.dbar (from_task a)) + padding (options (gantt a))))
           / 10))).

(** *** Reading a path *)

(** The point of the opening [M] command. *)
Definition path_start (p : list command) : option (Q * Q) :=
  match p with
  | MoveTo px py :: _ => Some (px, py)
  | _ => None
  end.

(** The point of the [L] command, the tip the arrow head is drawn at. *)
Fixpoint path_tip (p : list command) : option (Q * Q) :=
  match p with
  | [] => None
  | LineTo px py :: _ => Some (px, py)
  | _ :: p' => path_tip p'
  end.

(** The arcs of a path, each as (radius x, radius y, sweep flag, dx, dy). *)
Fixpoint arcs (p : list command) : list (Q * Q * Z * Q * Q) :=
  match p with
  | [] => []
  | ArcBy r1 r2 _ _ sw dx dy :: p' => (r1, r2, sw, dx, dy) :: arcs p'
  | _ :: p' => arcs p'
  end.

(** The two shapes, told apart by their sequence of commands. *)
Definition backward_shaped (p : list command) : Prop :=
  exists sx sy d1 c1 lf c2 cw2 cy2 d2 c3 cw3 cy3 ex ey,
    p = [ MoveTo sx sy; VertBy d1; ArcBy c1 c1 0 0 1 (- c1) c1; HorizTo lf;
          ArcBy c2 c2 0 0 cw2 (- c2) cy2; VertTo d2;
          ArcBy c3 c3 0 0 cw3 c3 cy3; LineTo ex ey ] ++ arrow_head.

Definition forward_shaped (p : list command) : Prop :=
  exists sx sy off c1 cw ex ey,
    p = [ MoveTo sx sy; VertTo off; ArcBy c1 c1 0 0 cw c1 c1; LineTo ex ey ]
        ++ arrow_head.

End Arrow.

(** ** The progress-width algorithm in the words of the specification

    Step by step, as section 4.2 of the specification describes it, for a
    bar at [bx] of width [w] with progress [p], ignored columns starting at
    [positions] and column width [c]. *)

Module ProgressSpec.

Section Steps.

Variable positions : list Q.
Variable c : Q.

(** The number of ignored positions in [[lo, hi)]. *)
Definition ignored_in (lo hi : Q) : nat :=
  length (filter (fun val => Qle_bool lo val && negb (Qle_bool hi val))
                 positions).

(** [pos] lies inside an ignored region. *)
Definition inside_ignored (pos : Q) : Prop :=
  Exists (fun val => val <= pos /\ pos < val + c) positions.

(** (1) the ignored area inside the bar's span *)
Definition total_ignored_area (bx w : Q) : Q :=
  c * inject_Z (Z.of_nat (ignored_in bx (bx + w))).

(** (2) the progress over the reduced width *)
Definition reduced_progress (bx w p : Q) : Q :=
  (w - total_ignored_area bx w) * (p / 100).

(** (3) the ignored area the progress jumps over, added back *)
Definition with_skipped (bx w p : Q) : Q :=
  reduced_progress bx w p
  + c * inject_Z (Z.of_nat (ignored_in bx (bx + reduced_progress bx w p))).

(** (4) [k] whole columns more *)
Definition extended (bx w p : Q) (k : nat) : Q :=
  with_skipped bx w p + inject_Z (Z.of_nat k) * c.

(** [r] is the progress width: the value of (3) extended by whole columns
    for as long as the right edge was inside an ignored region, and no
    further. *)
Definition is_progress_width (bx w p r : Q) : Prop :=
  exists k : nat,
    r == extended bx w p k
    /\ (forall j : nat, (j < k)%nat -> inside_ignored (bx + extended bx w p j))
    /\ ~ inside_ignored (bx + r).

End Steps.

End ProgressSpec.

(** ** Inputs of the concrete scenarios *)

Module Scenario.

Definition options : Options := mkOptions 18 5 20 3.

(** One ignored day: the pixel columns [[60,90)], columns 30 pixels wide. *)
Definition gantt : Gantt := mkGantt options (mkConfig 50 30 1 [60]) 0%Z.

Definition task (p : Js.value) (index : Z) : Task :=
  mkTask 0%Z 5%Z 0%Z 5%Z p index false.

(** A drawn bar at [bx], [by'] of width [w]. *)
Definition bar (bx by' w : Q) (p : Js.value) (index : Z) : Bar.t :=
  Bar.mk gantt (task p index) false 20 15 bx by' (w / 30) 3 w
         (mkRect bx by' w 20) Js.undefined.

(** Dates one unit apart per day. *)
Definition date_diff (a b : Date) : Q := inject_Z (a - b).

(** An arrow between two drawn bars of width 50, each at the [y] of its row:
    from a bar at [fx] in row [fi] to a bar at [tx] in row [ti]. *)
Definition arrow (fx : Q) (fi : Z) (tx : Q) (ti : Z) : Arrow.t :=
  Arrow.mk gantt
    (bar fx (Bar.compute_y gantt (task (Js.num 0) fi)) 50 (Js.num 0) fi)
    (bar tx (Bar.compute_y gantt (task (Js.num 0) ti)) 50 (Js.num 0) ti)
    [].


(** The same arrow in a chart whose [arrow_curve], 12, is larger than half
    the padding. *)
Definition tight_arrow (fx : Q) (fi : Z) (tx : Q) (ti : Z) : Arrow.t :=
  Arrow.mk (mkGantt (mkOptions 18 12 20 3) (config gantt) 0%Z)
           (Arrow.from_task (arrow fx fi tx ti))
           (Arrow.to_task (arrow fx fi tx ti))
           [].

End Scenario.

(** ** [src/bar.js]: the label, the thumbnail and the resize handles *)

Module BarDraw.

(** The access switches of [gantt.options] read by [draw_resize_handles]. *)
Record Access : Type := mkAccess {
  readonly : bool;
  readonly_dates : bool;
  readonly_progress : bool
}.

(** [draw_label]: the point the label is created at; [thumbnail] tells
    whether [task.thumbnail] is set. *)
Definition draw_label (thumbnail : bool) (b : Bar.t) : Q * Q :=
  let x_coord := Bar.x b + getWidth (Bar.dbar b) / 2 in
  let x_coord := if thumbnail then Bar.x b + Bar.image_size b + 5 else x_coord in
  (x_coord, Bar.y b + Bar.height b / 2).

(** [draw_thumbnail]: the clipping rectangle and the image have the same
    box. *)
Definition draw_thumbnail (b : Bar.t) : Rect :=
  let x_offset := 10 in
  let y_offset := 2 in
  mkRect (Bar.x b + x_offset) (Bar.y b + y_offset)
         (Bar.image_size b) (Bar.image_size b).

(** The [$bar_progress] rectangle [draw_progress_bar] creates around a
    numeric progress width [pw]. *)
Definition bar_progress (b : Bar.t) (pw : Q) : Rect :=
  mkRect (Bar.x b) (Bar.y b) pw (Bar.height b).

(** [getEndX]. *)
Definition getEndX (r : Rect) : Q := getX r + getWidth r.

(** What [draw_resize_handles] pushes on [this.handles]. *)
Inductive handle : Type :=
| HandleRight (r : Rect)             (* class 'handle right' *)
| HandleLeft (r : Rect)              (* class 'handle left' *)
| HandleProgress (cx cy radius : Q). (* class 'handle progress' *)

(** [draw_resize_handles]: [None] when it returns before [this.handles] is
    written, else the handles in the order they are pushed. *)
Definition draw_resize_handles (acc : Access) (b : Bar.t) (bp : Rect)
  : option (list handle) :=
  if Bar.invalid b || readonly acc then None
  else
    let bar := Bar.dbar b in
    let handle_width := 3 in
    let sides :=
      if negb (readonly_dates acc) then
        [ HandleRight
            (mkRect (getEndX bar - handle_width / 2)
                    (getY bar + Bar.height b / 4)
                    handle_width (Bar.height b / 2));
          HandleLeft
            (mkRect (getX bar - handle_width / 2)
                    (getY bar + Bar.height b / 4)
                    handle_width (Bar.height b / 2)) ]
      else [] in
    let progress :=
      if negb (readonly_progress acc) then
        [ HandleProgress (getEndX bp) (getY bp + getHeight bp / 2) (45 # 10) ]
      else [] in
    Some (sides ++ progress).

(** The centre of a handle. *)
Definition centre (h : handle) : Q * Q :=
  match h with
  | HandleRight r | HandleLeft r =>
      (getX r + getWidth r / 2, getY r + getHeight r / 2)
  | HandleProgress cx cy _ => (cx, cy)
  end.

End BarDraw.

(** ** The current point of a path *)

Module Pen.

(** The current point after one command of the SVG path grammar: a capital
    command gives absolute coordinates, a small one moves relative to the
    current point. *)
Definition move (p : Q * Q) (c : Arrow.command) : Q * Q :=
  match c with
  | Arrow.MoveTo px py => (px, py)
  | Arrow.VertBy dy => (fst p, snd p + dy)
  | Arrow.ArcBy _ _ _ _ _ dx dy => (fst p + dx, snd p + dy)
  | Arrow.HorizTo px => (px, snd p)
  | Arrow.VertTo py => (fst p, py)
  | Arrow.LineTo px py => (px, py)
  | Arrow.MoveBy dx dy => (fst p + dx, snd p + dy)
  | Arrow.LineBy dx dy => (fst p + dx, snd p + dy)
  end.

(** The current point after the first [n] commands of a path. *)
Definition after (n : nat) (p : list Arrow.command) : Q * Q :=
  fold_left move (firstn n p) (0, 0).

(** Two points with equal coordinates. *)
Definition same (p q : Q * Q) : Prop := fst p == fst q /\ snd p == snd q.

End Pen.

(** ** [svg_utils.js]: attributes, element creation and [$.closest] *)

Module SvgUtils.

(** The attributes of an element, in the order they were first set. *)
Definition attributes : Type := list (string * string).

(** [element.getAttribute(name)]; [None] is [null]. *)
Fixpoint getAttribute (name : string) (el : attributes) : option string :=
  match el with
  | [] => None
  | (k, v) :: rest =>
      if String.eqb k name then Some v else getAttribute name rest
  end.

(** [element.setAttribute(name, value)]: an attribute that is there gets the
    value, a new one is added last. *)
Fixpoint setAttribute (name value : string) (el : attributes) : attributes :=
  match el with
  | [] => [(name, value)]
  | (k, v) :: rest =>
      if String.eqb k name then (k, value) :: rest
      else (k, v) :: setAttribute name value rest
  end.

Section Values.

(** The JavaScript values handed over as attribute values, with their
    truthiness and their conversion to a string; [as_parent] is the node a
    value is, when it is one that takes the element as a child (on any other
    value [appendChild] is missing or throws); [valid_name] tells the names
    [setAttribute] accepts (on any other it throws). *)
Variable V : Type.
Variable truthy : V -> bool.
Variable to_string : V -> string.
Variable P : Type.
Variable as_parent : V -> option P.
Variable valid_name : string -> bool.

(** The second argument of [$.attr]: a name, or an object, given by its
    entries in the order [for ... in] visits them. *)
Inductive attr_name : Type :=
| Name (s : string)
| Object (entries : list (string * V)).

(** What [$.attr] returns: the result of [getAttribute], or [undefined]. *)
Inductive returned : Type :=
| Got (v : option string)
| Undefined.

(** [$.attr(element, name, value)] for a name; [None] is an omitted
    value. *)
Definition attr_name_value (el : attributes) (name : string) (value : option V)
  : attributes * returned :=
  let falsy :=
    match value with
    | None => true
    | Some v => negb (truthy v)
    end in
  if falsy then (el, Got (getAttribute name el))
  else
    match value with
    | Some v => (setAttribute name (to_string v) el, Undefined)
    | None => (el, Undefined)
    end.

(** [$.attr]: the element afterwards and the returned value. *)
Definition attr (el : attributes) (a : attr_name) (value : option V)
  : attributes * returned :=
  match a with
  | Name s => attr_name_value el s value
  | Object entries =>
      (fold_left (fun e kv => fst (attr_name_value e (fst kv) (Some (snd kv))))
                 entries el,
       Undefined)
  end.

(** A created element: its tag, attributes and [innerHTML], and the node it
    was appended to. *)
Record element : Type := mkElement {
  tag : string;
  attrs : attributes;
  innerHTML : string;
  parent : option P
}.

(** One turn of the loop of [createSVG]; [None] when the turn throws:
    [append_to] is no node to append to, or the key is no name
    [setAttribute] accepts. *)
Definition createSVG_step (elem : element) (kv : string * V) : option element :=
  let '(key, v) := kv in
  if String.eqb key "append_to" then
    match as_parent v with
    | Some p => Some (mkElement (tag elem) (attrs elem) (innerHTML elem) (Some p))
    | None => None
    end
  else if String.eqb key "innerHTML" then
    Some (mkElement (tag elem) (attrs elem) (to_string v) (parent elem))
  else if String.eqb key "clipPath" then
    Some (mkElement (tag elem)
            (setAttribute "clip-path"
               (String.append "url(#" (String.append (to_string v) ")"))
               (attrs elem))
            (innerHTML elem) (parent elem))
  else if valid_name key then
    Some (mkElement (tag elem) (setAttribute key (to_string v) (attrs elem))
                    (innerHTML elem) (parent elem))
  else None.

Fixpoint createSVG_loop (entries : list (string * V)) (elem : element)
  : option element :=
  match entries with
  | [] => Some elem
  | kv :: rest =>
      match createSVG_step elem kv with
      | Some elem' => createSVG_loop rest elem'
      | None => None
      end
  end.

(** [createSVG(tag, attrs)], the object [attrs] given by its entries. *)
Definition createSVG (tg : string) (entries : list (string * V))
  : option element :=
  createSVG_loop entries (mkElement tg [] "" None).

End Values.

(** The keys [createSVG] treats on their own. *)
Definition special_key (k : string) : Prop :=
  k = "append_to"%string \/ k = "innerHTML"%string \/ k = "clipPath"%string.

Arguments Name {V} s.
Arguments Object {V} entries.

Section Closest.

(** A node of the tree, seen from below: nothing ([null]), the document, a
    document fragment or shadow root, or an element with what it carries and
    its [parentNode]. *)
Variable D : Type.

Inductive node : Type :=
| Null
| Document
| Fragment
| Elem (d : D) (parentNode : node).

(** [element.matches(selector)], for the selectors [matches] accepts. *)
Variable S : Type.
Variable matches : S -> node -> bool.

(** The outcome of [$.closest]: an element, [null], or the [TypeError] of
    calling [matches] on the document or on a fragment, which have no such
    method. *)
Inductive found : Type :=
| Found (n : node)
| NotFound
| TypeError.

Fixpoint closest (selector : S) (element : node) : found :=
  match element with
  | Null => NotFound
  | Document | Fragment => TypeError
  | Elem _ parentNode =>
      if matches selector element then Found element
      else closest selector parentNode
  end.

(** The elements from a node upwards, nearest first, and what the chain of
    parents ends in. *)
Fixpoint ancestors (n : node) : list node :=
  match n with
  | Elem _ parentNode => n :: ancestors parentNode
  | _ => []
  end.

Fixpoint top (n : node) : node :=
  match n with
  | Elem _ parentNode => top parentNode
  | _ => n
  end.

End Closest.

Arguments Null {D}.
Arguments Document {D}.
Arguments Fragment {D}.
Arguments Elem {D} d parentNode.
Arguments Found {D} n.
Arguments NotFound {D}.
Arguments TypeError {D}.

End SvgUtils.

(** ** [defaults.js]: the decade labels of the Year view *)

Module Defaults.

(** [getDecade(d)], on the full year of [d]: [year - (year % 10)], where [%]
    takes the sign of the year.  The source turns the number into a string;
    two such strings differ exactly when the numbers do. *)
Definition getDecade (year : Z) : Z := year - Z.rem year 10.

(** [upper_text] of the Year view, on the years of [d] and of the last date
    [ld] ([None] when there is none): the decade to print, or [None] for the
    empty string. *)
Definition year_upper_text (d : Z) (ld : option Z) : option Z :=
  match ld with
  | None => Some (getDecade d)
  | Some l =>
      if negb (getDecade d =? getDecade l)%Z then Some (getDecade d) else None
  end.

End Defaults.

(** ** Further sample inputs *)

Module Sample.

(** The bar the geometry pass returns for a task of five days with the
    progress 250, in row 2 of the chart of [Scenario]. *)
Definition drawn_bar : Bar.t :=
  Eval vm_compute in
    match Bar.geometry Scenario.date_diff 2
            (Scenario.bar 7 3 11 (Js.num 250) 2) with
    | Some b => b
    | None => Scenario.bar 0 0 0 Js.undefined 0
    end.

(** Its progress width. *)
Definition drawn_progress_width : Q :=
  Eval vm_compute in
    match Bar.progress_width drawn_bar with
    | Js.num q => q
    | _ => 0
    end.

End Sample.

(** ** The two loops on double-precision numbers

    The numbers of the source are IEEE 754 doubles.  Whether a loop that adds
    or subtracts a fixed step ends depends on the rounding of that step, so
    the two loops are embedded once more, on the kernel's binary64 floats,
    whose operations round as JavaScript's do. *)

Module Double.

(** The closure [condition] of [calculate_path], at the current [start_x]. *)
Definition condition (to_x from_x pad sx : PrimFloat.float) : bool :=
  (to_x <? sx + pad)%float && (from_x + pad <? sx)%float.

(** [while (condition()) start_x -= 10;] with [None] when the fuel runs out
    before the loop is left. *)
Fixpoint adjust_start_x (fuel : nat) (to_x from_x pad sx : PrimFloat.float)
  : option PrimFloat.float :=
  match fuel with
  | O => None
  | S fuel' =>
      if condition to_x from_x pad sx
      then adjust_start_x fuel' to_x from_x pad (sx - 10)%float
      else Some sx
  end.

(** The value [start_x] is initialised with. *)
Definition initial_start_x (from_x from_width : PrimFloat.float) : PrimFloat.float :=
  (from_x + from_width / 2)%float.

(** [k] turns of that loop. *)
Definition steps_back (k : nat) (sx : PrimFloat.float) : PrimFloat.float :=
  Nat.iter k (fun s => (s - 10)%float) sx.

(** Modelled from the spec: [gantt.get_ignored_region(pos)], as
    [get_ignored_region] above, on doubles. *)
Definition get_ignored_region (c : PrimFloat.float) (positions : list PrimFloat.float)
  (pos : PrimFloat.float) : list PrimFloat.float :=
  filter (fun val => (val <=? pos)%float && (pos <? val + c)%float) positions.

(** The [reduce] over [ignored_positions]. *)
Definition count_ignored (positions : list PrimFloat.float) (lo hi : PrimFloat.float) : PrimFloat.float :=
  fold_left
    (fun acc val =>
       (acc + (if (lo <=? val)%float && (val <? hi)%float then 1 else 0))%float)
    positions 0%float.

(** The [while (ignored_regions.length)] loop of
    [calculate_progress_width]. *)
Fixpoint extend_over_ignored (fuel : nat) (c : PrimFloat.float)
  (positions : list PrimFloat.float) (bx pw : PrimFloat.float) : option PrimFloat.float :=
  match fuel with
  | O => None
  | S fuel' =>
      match get_ignored_region c positions (bx + pw)%float with
      | [] => Some pw
      | _ :: _ => extend_over_ignored fuel' c positions bx (pw + c)%float
      end
  end.

(** [k] turns of that loop. *)
Definition columns_added (c : PrimFloat.float) (k : nat) (pw : PrimFloat.float) : PrimFloat.float :=
  Nat.iter k (fun q => (q + c)%float) pw.

(** The value the loop of [calculate_progress_width] starts from. *)
Definition start_width (c : PrimFloat.float) (positions : list PrimFloat.float)
  (bx w p : PrimFloat.float) : PrimFloat.float :=
  let ignored_end := (bx + w)%float in
  let total_ignored_area := (count_ignored positions bx ignored_end * c)%float in
  let progress_width := ((w - total_ignored_area) * p / 100)%float in
  let progress_end := (bx + progress_width)%float in
  let total_ignored_progress :=
    (count_ignored positions bx progress_end * c)%float in
  (progress_width + total_ignored_progress)%float.

(** [calculate_progress_width] on a numeric progress [p]. *)
Definition progress_width_of (fuel : nat) (c : PrimFloat.float)
  (positions : list PrimFloat.float) (bx w p : PrimFloat.float) : option PrimFloat.float :=
  extend_over_ignored fuel c positions bx (start_width c positions bx w p).

End Double.

(** ** Measures for the two loops *)

(** The ignored regions whose right end is still ahead of [pos]: the loop of
    [calculate_progress_width] leaves one of them behind at every turn. *)
Definition regions_ahead (g : Gantt) (pos : Q) : nat :=
  length (filter (fun val => Js.ltb pos (val + column_width (config g)))
                 (ignored_positions (config g))).

(** Fuel that lets the loop of [calculate_progress_width] run to its end. *)
Definition progress_fuel (g : Gantt) : nat :=
  S (length (ignored_positions (config g))).

(** The value the loop of [calculate_progress_width] starts from: the
    progress over the reduced width with the ignored area before its right
    edge added back. *)
Definition progress_start (g : Gantt) (bx w p : Q) : Q :=
  let ignored_end := bx + w in
  let total_ignored_area :=
    Bar.count_ignored g bx ignored_end * column_width (config g) in
  let progress_width := ((w - total_ignored_area) * p) / 100 in
  let progress_end := bx + progress_width in
  let total_ignored_progress :=
    Bar.count_ignored g bx progress_end * column_width (config g) in
  progress_width + total_ignored_progress.

(** [k] turns of each loop. *)
Definition columns_added (c : Q) (k : nat) (pw : Q) : Q :=
  Nat.iter k (fun q => q + c) pw.

Definition steps_back (k : nat) (sx : Q) : Q :=
  Nat.iter k (fun q => q - 10) sx.

(** * Properties *)

(** ** Comparisons *)

Lemma ltb_lt (a b : Q) : Js.ltb a b = true <-> a < b.
Proof.
  unfold Js.ltb. rewrite negb_true_iff.
  split; intro H.
  - apply Qnot_le_lt. intro L. apply Qle_bool_iff in L. congruence.
  - destruct (Qle_bool b a) eqn:E; [|reflexivity].
    apply Qle_bool_iff in E. exfalso. apply (Qlt_not_le _ _ H E).
Qed.

Lemma ltb_ge (a b : Q) : Js.ltb a b = false <-> b <= a.
Proof.
  unfold Js.ltb. rewrite negb_false_iff. apply Qle_bool_iff.
Qed.

Lemma leb_le (a b : Q) : Js.leb a b = true <-> a <= b.
Proof. apply Qle_bool_iff. Qed.

Lemma leb_gt (a b : Q) : Js.leb a b = false <-> b < a.
Proof.
  rewrite <- ltb_lt. unfold Js.ltb, Js.leb.
  destruct (Qle_bool a b); simpl; intuition congruence.
Qed.

Lemma gtb_gt (a b : Q) : Js.gtb a b = true <-> b < a.
Proof. apply ltb_lt. Qed.

Lemma gtb_le (a b : Q) : Js.gtb a b = false <-> a <= b.
Proof. apply ltb_ge. Qed.

Lemma geb_ge (a b : Q) : Js.geb a b = true <-> b <= a.
Proof. apply leb_le. Qed.

#[global] Instance ltb_proper : Proper (Qeq ==> Qeq ==> eq) Js.ltb.
Proof. intros a a' Ha b b' Hb. unfold Js.ltb. now rewrite Ha, Hb. Qed.

#[global] Instance leb_proper : Proper (Qeq ==> Qeq ==> eq) Js.leb.
Proof. intros a a' Ha b b' Hb. unfold Js.leb. now rewrite Ha, Hb. Qed.

#[global] Instance geb_proper : Proper (Qeq ==> Qeq ==> eq) Js.geb.
Proof. intros a a' Ha b b' Hb. unfold Js.geb. now rewrite Ha, Hb. Qed.

(** Decide a comparison in the goal or the context by cases. *)
Ltac cmp_cases :=
  repeat match goal with
  | |- context [Js.ltb ?a ?b] =>
      let E := fresh "E" in
      destruct (Js.ltb a b) eqn:E;
      [apply ltb_lt in E | apply ltb_ge in E]
  | |- context [Js.leb ?a ?b] =>
      let E := fresh "E" in
      destruct (Js.leb a b) eqn:E;
      [apply leb_le in E | apply leb_gt in E]
  | |- context [Js.gtb ?a ?b] =>
      let E := fresh "E" in
      destruct (Js.gtb a b) eqn:E;
      [apply gtb_gt in E | apply gtb_le in E]
  | |- context [Qeq_bool ?a ?b] =>
      let E := fresh "E" in
      destruct (Qeq_bool a b) eqn:E;
      [apply Qeq_bool_iff in E | apply Qeq_bool_neq in E]
  end.

(** ** Progress is clamped *)

Lemma clamp_progress_num (a : Q) :
  exists q, Bar.clamp_progress (Js.num a) = Js.num q
    /\ 0 <= q /\ q <= 100
    /\ (a < 0 -> q = 0) /\ (100 < a -> q = 100)
    /\ (0 <= a <= 100 -> q == a).
Proof.
  unfold Bar.clamp_progress, Js.value_ltb, Js.value_gtb, Js.not; simpl.
  cmp_cases; simpl; cmp_cases; simpl;
    eexists; (split; [reflexivity|]);
    repeat split; intros; try reflexivity; try lra.
Qed.

Lemma clamp_progress_absent (v : Js.value) :
  Js.to_number v = None -> Bar.clamp_progress v = Js.num 0.
Proof.
  destruct v; simpl; intros H; try discriminate; reflexivity.
Qed.

Lemma clamp_progress_idempotent (v : Js.value) :
  Bar.clamp_progress (Bar.clamp_progress v) = Bar.clamp_progress v.
Proof.
  destruct v; try reflexivity.
  unfold Bar.clamp_progress, Js.value_ltb, Js.value_gtb, Js.not; simpl.
  cmp_cases; simpl; cmp_cases; simpl; cmp_cases; simpl; cmp_cases;
    try reflexivity; exfalso; lra.
Qed.

(** C2: whatever progress a task comes with (a number of any size, or none),
    after [prepare_values] its progress is a number in [[0,100]]: 0 for an
    absent one or one below 0, 100 for one above 100, the input otherwise. *)
Theorem prepare_values_progress_in_range
  (date_diff : Date -> Date -> Q) (b : Bar.t) :
  exists q : Q,
    task_progress (Bar.task (Bar.prepare_values date_diff b)) = Js.num q
    /\ (0 <= q /\ q <= 100)
    /\ match Js.to_number (task_progress (Bar.task b)) with
       | None => q = 0
       | Some a =>
           (a < 0 -> q = 0) /\ (100 < a -> q = 100)
           /\ (0 <= a <= 100 -> q == a)
       end.
Proof.
  unfold Bar.prepare_values; simpl.
  destruct (task_progress (Bar.task b)) as [ | | | a] eqn:P; simpl.
  - exists 0. repeat split; lra.
  - exists 0. repeat split; intros; try reflexivity; lra.
  - exists 0. repeat split; lra.
  - destruct (clamp_progress_num a) as (q & Hq & H0 & H100 & Hlo & Hhi & Hmid).
    exists q. auto.
Qed.

Lemma prepare_values_progress_in_range_witness :
  exists q : Q,
    task_progress
      (Bar.task (Bar.prepare_values Scenario.date_diff
                   (Scenario.bar 0 59 150 (Js.num 250) 0)))
    = Js.num q
    /\ 100 < 250
    /\ q = 100.
Proof.
  destruct (prepare_values_progress_in_range Scenario.date_diff
              (Scenario.bar 0 59 150 (Js.num 250) 0))
    as (q & Hq & _ & H).
  simpl in H. destruct H as (_ & Hhi & _).
  assert (H250 : 100 < 250) by reflexivity.
  exists q. split; [exact Hq|]. split; [exact H250 | exact (Hhi H250)].
Defined.

(** ** The loop of [calculate_progress_width] *)

Lemma filter_length_mono {A : Type} (f h : A -> bool) (l : list A) :
  (forall a, In a l -> f a = true -> h a = true) ->
  (length (filter f l) <= length (filter h l))%nat.
Proof.
  induction l as [|a l IH]; intros Himp; simpl; [lia|].
  assert (IH' := IH (fun a' Ha' => Himp a' (or_intror Ha'))).
  destruct (f a) eqn:Fa.
  - rewrite (Himp a (or_introl eq_refl) Fa). simpl. lia.
  - destruct (h a); simpl; lia.
Qed.

Lemma filter_length_drop {A : Type} (f h : A -> bool) (l : list A) :
  (forall a, In a l -> f a = true -> h a = true) ->
  (exists a, In a l /\ h a = true /\ f a = false) ->
  (length (filter f l) < length (filter h l))%nat.
Proof.
  induction l as [|a l IH]; intros Himp (a0 & Hin & Hh & Hf).
  - destruct Hin.
  - assert (Himp' : forall a', In a' l -> f a' = true -> h a' = true)
      by (intros a' Ha'; apply Himp; now right).
    simpl. destruct Hin as [-> | Hin].
    + rewrite Hh, Hf. simpl.
      pose proof (filter_length_mono f h l Himp'). lia.
    + assert (IH' : (length (filter f l) < length (filter h l))%nat)
        by (apply IH; [exact Himp' | now exists a0]).
      destruct (f a) eqn:Fa.
      * rewrite (Himp a (or_introl eq_refl) Fa). simpl. lia.
      * destruct (h a); simpl; lia.
Qed.

Lemma regions_ahead_bound (g : Gantt) (pos : Q) :
  (regions_ahead g pos < progress_fuel g)%nat.
Proof.
  unfold regions_ahead, progress_fuel.
  pose proof (filter_length_le
                (fun val => Js.ltb pos (val + column_width (config g)))
                (ignored_positions (config g))).
  lia.
Qed.

Lemma get_ignored_region_inside (g : Gantt) (pos : Q) :
  get_ignored_region g pos <> [] <->
  exists val, In val (ignored_positions (config g))
              /\ val <= pos /\ pos < val + column_width (config g).
Proof.
  unfold get_ignored_region. split.
  - intros Hne.
    destruct (filter _ _) as [|val rest] eqn:F; [congruence|].
    assert (Hin : In val (val :: rest)) by now left.
    rewrite <- F in Hin. apply filter_In in Hin.
    destruct Hin as [Hin Hb]. apply andb_true_iff in Hb.
    destruct Hb as [Hl Hr]. apply leb_le in Hl. apply ltb_lt in Hr.
    now exists val.
  - intros (val & Hin & Hl & Hr) Hnil.
    assert (Hf : In val (filter
                  (fun val => Js.leb val pos
                              && Js.ltb pos (val + column_width (config g)))
                  (ignored_positions (config g)))).
    { apply filter_In. split; [exact Hin|].
      apply andb_true_iff. split; [now apply leb_le | now apply ltb_lt]. }
    rewrite Hnil in Hf. destruct Hf.
Qed.

Lemma get_ignored_region_outside (g : Gantt) (pos : Q) :
  get_ignored_region g pos = [] <->
  ~ exists val, In val (ignored_positions (config g))
                /\ val <= pos /\ pos < val + column_width (config g).
Proof.
  rewrite <- get_ignored_region_inside.
  destruct (get_ignored_region g pos); split; intro H;
    try congruence; try reflexivity.
  exfalso. apply H. discriminate.
Qed.

Lemma regions_ahead_step (g : Gantt) (pos pos' : Q) :
  0 < column_width (config g) ->
  get_ignored_region g pos <> [] ->
  pos' == pos + column_width (config g) ->
  (regions_ahead g pos' < regions_ahead g pos)%nat.
Proof.
  intros Hc Hne Hpos.
  apply get_ignored_region_inside in Hne.
  destruct Hne as (val & Hin & Hl & Hr).
  unfold regions_ahead. apply filter_length_drop.
  - intros a _ Ha. apply ltb_lt in Ha. apply ltb_lt. lra.
  - exists val. split; [exact Hin|]. split.
    + now apply ltb_lt.
    + apply ltb_ge. lra.
Qed.

Lemma extend_over_ignored_enough_fuel (g : Gantt) (bx : Q) :
  0 < column_width (config g) ->
  forall (fuel : nat) (pw : Q),
    (regions_ahead g (bx + pw) < fuel)%nat ->
    exists r, Bar.extend_over_ignored fuel g bx pw = Some r.
Proof.
  intros Hc. induction fuel as [|fuel IH]; intros pw Hlt; [lia|].
  simpl. destruct (get_ignored_region g (bx + pw)) as [|val rest] eqn:R.
  - now exists pw.
  - apply IH.
    assert (Hstep : (regions_ahead g (bx + (pw + column_width (config g)))
                     < regions_ahead g (bx + pw))%nat).
    { apply regions_ahead_step; [exact Hc | rewrite R; discriminate | ring]. }
    lia.
Qed.

Lemma extend_over_ignored_more_fuel (g : Gantt) (bx : Q) :
  forall (fuel fuel' : nat) (pw r : Q),
    Bar.extend_over_ignored fuel g bx pw = Some r ->
    (fuel <= fuel')%nat ->
    Bar.extend_over_ignored fuel' g bx pw = Some r.
Proof.
  induction fuel as [|fuel IH]; intros fuel' pw r H Hle; [discriminate|].
  destruct fuel' as [|fuel']; [lia|].
  simpl in *. destruct (get_ignored_region g (bx + pw)); [exact H|].
  apply (IH fuel'); [exact H | lia].
Qed.

(** What the loop returns: the start value with [k] columns added, where
    every earlier right edge was inside an ignored region and the last one
    is not. *)
Lemma extend_over_ignored_result (g : Gantt) (bx : Q) :
  forall (fuel : nat) (pw r : Q),
    Bar.extend_over_ignored fuel g bx pw = Some r ->
    exists k : nat,
      (k < fuel)%nat
      /\ r = columns_added (column_width (config g)) k pw
      /\ (forall j, (j < k)%nat ->
            get_ignored_region g
              (bx + columns_added (column_width (config g)) j pw) <> [])
      /\ get_ignored_region g (bx + r) = [].
Proof.
  induction fuel as [|fuel IH]; intros pw r H; [discriminate|].
  simpl in H.
  destruct (get_ignored_region g (bx + pw)) as [|val rest] eqn:R.
  - injection H as <-. exists 0%nat. repeat split; [lia | | exact R].
    intros j Hj. lia.
  - apply IH in H. destruct H as (k & Hk & Hr & Hin & Hout).
    exists (S k). split; [lia|]. split; [|split; [|exact Hout]].
    + rewrite Hr. unfold columns_added. now rewrite Nat.iter_succ_r.
    + intros [|j] Hj.
      * simpl. rewrite R. discriminate.
      * unfold columns_added. rewrite Nat.iter_succ_r.
        apply Hin. lia.
Qed.

Lemma columns_added_eq (c : Q) (k : nat) (pw : Q) :
  columns_added c k pw == pw + inject_Z (Z.of_nat k) * c.
Proof.
  unfold columns_added. induction k as [|k IH].
  - simpl. ring.
  - rewrite Nat2Z.inj_succ. unfold Z.succ. rewrite inject_Z_plus.
    simpl Nat.iter. rewrite IH. ring.
Qed.

Lemma extend_over_ignored_returns (g : Gantt) (bx pw : Q) :
  0 < column_width (config g) ->
  exists r : Q,
    forall fuel, (progress_fuel g <= fuel)%nat ->
      Bar.extend_over_ignored fuel g bx pw = Some r.
Proof.
  intros Hc.
  destruct (extend_over_ignored_enough_fuel g bx Hc (progress_fuel g) pw
              (regions_ahead_bound g (bx + pw))) as (r & Hr).
  exists r. intros fuel Hfuel.
  now apply (extend_over_ignored_more_fuel g bx (progress_fuel g)).
Qed.

Lemma double_extend_result (c : PrimFloat.float) (positions : list PrimFloat.float)
  (bx : PrimFloat.float) :
  forall (fuel : nat) (pw r : PrimFloat.float),
    Double.extend_over_ignored fuel c positions bx pw = Some r ->
    exists k : nat,
      (k < fuel)%nat
      /\ r = Double.columns_added c k pw
      /\ (forall j, (j < k)%nat ->
            Double.get_ignored_region c positions
              (bx + Double.columns_added c j pw)%float <> [])
      /\ Double.get_ignored_region c positions (bx + r)%float = [].
Proof.
  induction fuel as [|fuel IH]; intros pw r H; [discriminate|].
  simpl in H.
  destruct (Double.get_ignored_region c positions (bx + pw)%float)
    as [|val rest] eqn:R.
  - injection H as <-. exists 0%nat. split; [lia|].
    split; [reflexivity|]. split; [|exact R].
    intros j Hj. lia.
  - apply IH in H. destruct H as (k & Hk & Hr & Hin & Hout).
    exists (Datatypes.S k). split; [lia|].
    split; [|split; [|exact Hout]].
    + rewrite Hr. unfold Double.columns_added. now rewrite Nat.iter_succ_r.
    + intros [|j] Hj.
      * simpl. rewrite R. discriminate.
      * unfold Double.columns_added. rewrite Nat.iter_succ_r.
        apply Hin. lia.
Qed.

Lemma double_extend_absorbed (c : PrimFloat.float)
  (positions : list PrimFloat.float) (bx pw : PrimFloat.float) :
  Double.get_ignored_region c positions (bx + pw)%float <> [] ->
  (pw + c)%float = pw ->
  forall fuel, Double.extend_over_ignored fuel c positions bx pw = None.
Proof.
  intros Hin Habs. induction fuel as [|fuel IH]; [reflexivity|].
  simpl. destruct (Double.get_ignored_region c positions (bx + pw)%float);
    [congruence|].
  rewrite Habs. exact IH.
Qed.




(** ** [calculate_progress_width] against the specification's steps *)

Lemma count_ignored_fold (lo hi : Q) (l : list Q) (acc : Q) :
  fold_left (fun acc val => acc + Js.of_bool (Js.geb val lo && Js.ltb val hi))
            l acc
  == acc + inject_Z (Z.of_nat
             (length (filter (fun val => Qle_bool lo val
                                         && negb (Qle_bool hi val)) l))).
Proof.
  revert acc. induction l as [|val l IH]; intros acc.
  - simpl. ring.
  - simpl fold_left. rewrite IH. simpl filter.
    unfold Js.geb, Js.leb, Js.ltb.
    destruct (Qle_bool lo val && negb (Qle_bool hi val)).
    + simpl length. rewrite Nat2Z.inj_succ. unfold Z.succ.
      rewrite inject_Z_plus. simpl Js.of_bool. ring.
    + simpl Js.of_bool. ring.
Qed.

Lemma count_ignored_spec (g : Gantt) (lo hi : Q) :
  Bar.count_ignored g lo hi
  == inject_Z (Z.of_nat
       (ProgressSpec.ignored_in (ignored_positions (config g)) lo hi)).
Proof.
  unfold Bar.count_ignored, ProgressSpec.ignored_in.
  rewrite count_ignored_fold. ring.
Qed.

Lemma ignored_in_proper (l : list Q) (lo hi hi' : Q) :
  hi == hi' -> ProgressSpec.ignored_in l lo hi = ProgressSpec.ignored_in l lo hi'.
Proof.
  intros H. unfold ProgressSpec.ignored_in. f_equal.
  apply filter_ext. intros val. now rewrite H.
Qed.

Lemma inside_ignored_region (g : Gantt) (pos pos' : Q) :
  pos == pos' ->
  get_ignored_region g pos <> [] ->
  ProgressSpec.inside_ignored (ignored_positions (config g))
                              (column_width (config g)) pos'.
Proof.
  intros Hpos H. apply get_ignored_region_inside in H.
  destruct H as (val & Hin & Hl & Hr).
  apply Exists_exists. exists val. split; [exact Hin|]. lra.
Qed.

Lemma outside_ignored_region (g : Gantt) (pos : Q) :
  get_ignored_region g pos = [] ->
  ~ ProgressSpec.inside_ignored (ignored_positions (config g))
                                (column_width (config g)) pos.
Proof.
  intros H Hin. apply get_ignored_region_outside in H. apply H.
  apply Exists_exists in Hin. destruct Hin as (val & Hin & Hl & Hr).
  now exists val.
Qed.

(** The value the loop starts from is the specification's step (3). *)
Lemma start_value_with_skipped (g : Gantt) (bx w p : Q) :
  let c := column_width (config g) in
  let pw1 := ((w - Bar.count_ignored g bx (bx + w) * c) * p) / 100 in
  pw1 + Bar.count_ignored g bx (bx + pw1) * c
  == ProgressSpec.with_skipped (ignored_positions (config g)) c bx w p.
Proof.
  intros c pw1.
  assert (H1 : pw1 == ProgressSpec.reduced_progress
                        (ignored_positions (config g)) c bx w p).
  { unfold pw1, ProgressSpec.reduced_progress, ProgressSpec.total_ignored_area.
    rewrite count_ignored_spec. fold c. field. }
  unfold ProgressSpec.with_skipped.
  rewrite count_ignored_spec.
  rewrite (ignored_in_proper _ bx (bx + pw1)
             (bx + ProgressSpec.reduced_progress
                     (ignored_positions (config g)) c bx w p))
    by (rewrite H1; reflexivity).
  rewrite H1. ring.
Qed.

Lemma progress_width_of_spec (g : Gantt) (bx w p : Q) (fuel : nat) :
  0 < column_width (config g) ->
  (progress_fuel g <= fuel)%nat ->
  exists r : Q,
    Bar.progress_width_of fuel g bx w p = Some r
    /\ ProgressSpec.is_progress_width
         (ignored_positions (config g)) (column_width (config g)) bx w p r.
Proof.
  intros Hc Hfuel. unfold Bar.progress_width_of.
  pose proof (start_value_with_skipped g bx w p) as Hstart. simpl in Hstart.
  set (pw2 := _ + Bar.count_ignored g bx _ * _) in *.
  destruct (extend_over_ignored_returns g bx pw2 Hc) as (r & Hret).
  specialize (Hret fuel Hfuel). exists r. split; [exact Hret|].
  destruct (extend_over_ignored_result g bx _ _ _ Hret)
    as (k' & _ & Hr' & Hin & Hout).
  exists k'. unfold ProgressSpec.extended.
  split; [|split].
  - rewrite Hr', columns_added_eq, Hstart. reflexivity.
  - intros j Hj. apply (inside_ignored_region g _ _) with (2 := Hin j Hj).
    rewrite columns_added_eq, Hstart. reflexivity.
  - now apply outside_ignored_region.
Qed.

(** C1: for a bar with a numeric progress and a positive column width,
    [calculate_progress_width] returns (and stores) the value of the
    specification's four steps; for one ignored column [[60,90)], [x = 0],
    [width = 150] and [progress = 50] that is the reduced width
    [(150 - 30) * 50 / 100 = 60] extended by one column, 90, and not the
    naive 75. *)
Theorem calculate_progress_width_follows_spec :
  (forall (b : Bar.t) (p : Q) (fuel : nat),
      0 < column_width (config (Bar.gantt b)) ->
      task_progress (Bar.task b) = Js.num p ->
      (progress_fuel (Bar.gantt b) <= fuel)%nat ->
      exists (b' : Bar.t) (r : Q),
        Bar.calculate_progress_width fuel b = Some (b', Js.num r)
        /\ Bar.progress_width b' = Js.num r
        /\ ProgressSpec.is_progress_width
             (ignored_positions (config (Bar.gantt b)))
             (column_width (config (Bar.gantt b)))
             (Bar.x b) (getWidth (Bar.dbar b)) p r)
  /\ (exists (b' : Bar.t) (r : Q),
        Bar.calculate_progress_width
          (progress_fuel Scenario.gantt)
          (Scenario.bar 0 59 150 (Js.num 50) 0) = Some (b', Js.num r)
        /\ r == ProgressSpec.extended [60] 30 0 150 50 1
        /\ r == 90
        /\ ~ r == 150 * (50 / 100)).
Proof.
  split.
  - intros b p fuel Hc Hp Hfuel.
    destruct (progress_width_of_spec (Bar.gantt b) (Bar.x b)
                (getWidth (Bar.dbar b)) p fuel Hc Hfuel) as (r & Hr & Hspec).
    unfold Bar.calculate_progress_width. rewrite Hp. simpl Js.to_number.
    cbv iota beta. rewrite Hr. simpl.
    eexists. exists r. split; [reflexivity|]. split; [reflexivity|].
    exact Hspec.
  - eexists. eexists. split; [vm_compute; reflexivity|].
    split; [|split]; vm_compute; congruence.
Qed.

Lemma calculate_progress_width_follows_spec_witness :
  0 < column_width (config (Bar.gantt (Scenario.bar 0 59 150 (Js.num 50) 0)))
  /\ exists (b' : Bar.t) (r : Q),
       Bar.calculate_progress_width 2 (Scenario.bar 0 59 150 (Js.num 50) 0)
       = Some (b', Js.num r)
       /\ Bar.progress_width b' = Js.num r
       /\ ProgressSpec.is_progress_width [60] 30 0 150 50 r.
Proof.
  assert (Hc : 0 < column_width
                     (config (Bar.gantt (Scenario.bar 0 59 150 (Js.num 50) 0))))
    by reflexivity.
  split; [exact Hc|].
  exact (proj1 calculate_progress_width_follows_spec
               (Scenario.bar 0 59 150 (Js.num 50) 0) 50 2%nat
               Hc eq_refl (le_n 2)).
Defined.

(** C10: [progress_width <= width] is no invariant.  A bar at 0 of width 60
    with progress 100, no ignored position inside [[0,60)] and its right edge
    60 inside the ignored region [[60,90)] gets the progress width 90; a bar
    at 70 of width 10, in the middle of that region, gets 40. *)
Theorem progress_width_can_exceed_width :
  (exists (b' : Bar.t) (r : Q),
     let b := Scenario.bar 0 59 60 (Js.num 100) 0 in
     Bar.calculate_progress_width (progress_fuel (Bar.gantt b)) b
     = Some (b', Js.num r)
     /\ Bar.count_ignored (Bar.gantt b) (Bar.x b)
          (Bar.x b + getWidth (Bar.dbar b)) == 0
     /\ get_ignored_region (Bar.gantt b) (Bar.x b + getWidth (Bar.dbar b))
        = [60]
     /\ r == 90
     /\ getWidth (Bar.dbar b) < r)
  /\ (exists (b' : Bar.t) (r : Q),
        let b := Scenario.bar 70 59 10 (Js.num 100) 0 in
        Bar.calculate_progress_width (progress_fuel (Bar.gantt b)) b
        = Some (b', Js.num r)
        /\ Bar.count_ignored (Bar.gantt b) (Bar.x b)
             (Bar.x b + getWidth (Bar.dbar b)) == 0
        /\ r == 40
        /\ getWidth (Bar.dbar b) < r).
Proof.
  split; eexists; eexists; cbv zeta;
    (split; [vm_compute; reflexivity|]);
    repeat split; vm_compute; congruence.
Qed.

(** ** Geometry twice *)

Lemma calculate_progress_width_returns (b : Bar.t) (fuel : nat) :
  0 < column_width (config (Bar.gantt b)) ->
  (progress_fuel (Bar.gantt b) <= fuel)%nat ->
  exists (b' : Bar.t) (v : Js.value),
    Bar.calculate_progress_width fuel b = Some (b', v).
Proof.
  intros Hc Hfuel. unfold Bar.calculate_progress_width.
  destruct (Js.to_number (task_progress (Bar.task b))) as [p|].
  - destruct (progress_width_of_spec (Bar.gantt b) (Bar.x b)
                (getWidth (Bar.dbar b)) p fuel Hc Hfuel) as (r & Hr & _).
    rewrite Hr. simpl. eauto.
  - simpl. eauto.
Qed.

Lemma to_number_clamp_progress (v : Js.value) :
  exists q, Bar.clamp_progress v = Js.num q.
Proof.
  destruct v as [ | | | a]; try (exists 0; reflexivity).
  destruct (clamp_progress_num a) as (q & Hq & _). now exists q.
Qed.

Lemma geometry_again (date_diff : Date -> Date -> Q) (fuel : nat)
  (b b1 : Bar.t) :
  Bar.geometry date_diff fuel b = Some b1 ->
  Bar.geometry date_diff fuel b1 = Some b1.
Proof.
  unfold Bar.geometry, Bar.draw_progress_bar.
  destruct b as [g tk inv h im bx by' du cr w db pw].
  destruct tk as [ts te ts' te' p ix iv].
  unfold Bar.prepare_values, Bar.draw_bar, Bar.calculate_progress_width.
  cbn -[Bar.clamp_progress Bar.progress_width_of].
  destruct iv.
  - intros H. injection H as <-.
    cbn -[Bar.clamp_progress Bar.progress_width_of].
    now rewrite clamp_progress_idempotent.
  - destruct (to_number_clamp_progress p) as (q & Hq).
    rewrite Hq. cbn -[Bar.clamp_progress Bar.progress_width_of].
    destruct (Bar.progress_width_of fuel g _ _ q) as [r|] eqn:R;
      cbn -[Bar.clamp_progress Bar.progress_width_of]; [|discriminate].
    intros H. injection H as <-.
    cbn -[Bar.clamp_progress Bar.progress_width_of].
    rewrite <- Hq, clamp_progress_idempotent, Hq.
    unfold Bar.compute_x, Bar.compute_duration, Bar.compute_y in *.
    cbn -[Bar.clamp_progress Bar.progress_width_of] in *.
    rewrite R. reflexivity.
Qed.

Lemma geometry_progress (date_diff : Date -> Date -> Q) (fuel : nat)
  (b b1 : Bar.t) :
  Bar.geometry date_diff fuel b = Some b1 ->
  task_progress (Bar.task b1)
  = Bar.clamp_progress (task_progress (Bar.task b)).
Proof.
  unfold Bar.geometry, Bar.draw_progress_bar.
  destruct (Bar.invalid _).
  - intros H. injection H as <-. reflexivity.
  - unfold Bar.calculate_progress_width.
    destruct (match Js.to_number _ with Some _ => _ | None => _ end);
      simpl; [|discriminate].
    intros H. injection H as <-. reflexivity.
Qed.

Lemma geometry_returns (date_diff : Date -> Date -> Q) (fuel : nat)
  (b : Bar.t) :
  0 < column_width (config (Bar.gantt b)) ->
  (progress_fuel (Bar.gantt b) <= fuel)%nat ->
  exists b1, Bar.geometry date_diff fuel b = Some b1.
Proof.
  intros Hc Hfuel. unfold Bar.geometry, Bar.draw_progress_bar.
  destruct (Bar.invalid _); [eauto|].
  destruct (calculate_progress_width_returns
              (Bar.draw_bar (Bar.prepare_values date_diff b)) fuel Hc Hfuel)
    as (b' & v & Hb').
  rewrite Hb'. simpl. eauto.
Qed.

(** C9: whatever bar the geometry pass returns, run again on that bar (task,
    axis and ignored positions untouched) it returns the very same bar: same
    [x], [y], [width], [height] and [progress_width]; the progress clamped by
    the first pass is left as it is by the second.  With a positive column
    width the pass does return a bar. *)
Theorem geometry_idempotent
  (date_diff : Date -> Date -> Q) (b : Bar.t) (fuel : nat) :
  (forall b1 : Bar.t,
      Bar.geometry date_diff fuel b = Some b1 ->
      exists b2 : Bar.t,
        Bar.geometry date_diff fuel b1 = Some b2
        /\ Bar.view b2 = Bar.view b1
        /\ b2 = b1
        /\ task_progress (Bar.task b1)
           = Bar.clamp_progress (task_progress (Bar.task b))
        /\ Bar.clamp_progress (task_progress (Bar.task b1))
           = task_progress (Bar.task b1))
  /\ (0 < column_width (config (Bar.gantt b)) ->
      (progress_fuel (Bar.gantt b) <= fuel)%nat ->
      exists b1 : Bar.t, Bar.geometry date_diff fuel b = Some b1).
Proof.
  split.
  - intros b1 Hb1.
    pose proof (geometry_progress date_diff fuel b b1 Hb1) as Hp.
    exists b1. split; [exact (geometry_again date_diff fuel b b1 Hb1)|].
    repeat split; try reflexivity; try exact Hp.
    rewrite Hp. apply clamp_progress_idempotent.
  - apply geometry_returns.
Qed.

Lemma geometry_idempotent_witness :
  0 < column_width
        (config (Bar.gantt (Scenario.bar 7 3 11 (Js.num 250) 2)))
  /\ (progress_fuel (Bar.gantt (Scenario.bar 7 3 11 (Js.num 250) 2)) <= 2)%nat
  /\ exists b1 b2 : Bar.t,
       Bar.geometry Scenario.date_diff 2 (Scenario.bar 7 3 11 (Js.num 250) 2)
       = Some b1
       /\ Bar.geometry Scenario.date_diff 2 b1 = Some b2
       /\ Bar.view b2 = Bar.view b1
       /\ task_progress (Bar.task b1) = Js.num 100.
Proof.
  assert (Hc : 0 < column_width
                     (config (Bar.gantt (Scenario.bar 7 3 11 (Js.num 250) 2))))
    by reflexivity.
  split; [exact Hc|]. split; [exact (le_n 2)|].
  destruct (geometry_idempotent Scenario.date_diff
              (Scenario.bar 7 3 11 (Js.num 250) 2) 2) as [Hagain Hret].
  destruct (Hret Hc (le_n 2)) as (b1 & Hb1).
  destruct (Hagain b1 Hb1) as (b2 & Hb2 & Hview & _ & Hp & _).
  exists b1, b2. split; [exact Hb1|]. split; [exact Hb2|].
  split; [exact Hview | exact Hp].
Defined.

(** ** The loop of [calculate_path] *)

Lemma steps_back_eq (k : nat) (sx : Q) :
  steps_back k sx == sx - 10 * inject_Z (Z.of_nat k).
Proof.
  unfold steps_back. induction k as [|k IH].
  - simpl. ring.
  - rewrite Nat2Z.inj_succ. unfold Z.succ. rewrite inject_Z_plus.
    simpl Nat.iter. rewrite IH. ring.
Qed.

Lemma condition_iff (a : Arrow.t) (sx : Q) :
  Arrow.condition a sx = true <->
  getX (Bar.dbar (Arrow.to_task a)) < sx + padding (options (Arrow.gantt a))
  /\ getX (Bar.dbar (Arrow.from_task a)) + padding (options (Arrow.gantt a))
     < sx.
Proof.
  unfold Arrow.condition. rewrite andb_true_iff, ltb_lt, gtb_gt. tauto.
Qed.

Lemma adjust_start_x_enough_fuel (a : Arrow.t) :
  forall (n : nat) (sx : Q),
    sx - (getX (Bar.dbar (Arrow.from_task a))
          + padding (options (Arrow.gantt a)))
    <= 10 * inject_Z (Z.of_nat n) ->
    forall fuel, (n < fuel)%nat ->
      exists r, Arrow.adjust_start_x fuel a sx = Some r.
Proof.
  induction n as [|n IH]; intros sx Hsx fuel Hfuel;
    (destruct fuel as [|fuel]; [lia|]); simpl;
    destruct (Arrow.condition a sx) eqn:C; eauto.
  - apply condition_iff in C. change (inject_Z (Z.of_nat 0)) with 0 in Hsx.
    exfalso. lra.
  - apply IH; [|lia]. apply condition_iff in C.
    rewrite Nat2Z.inj_succ in Hsx. unfold Z.succ in Hsx.
    rewrite inject_Z_plus in Hsx. change (inject_Z 1) with 1 in Hsx. lra.
Qed.

Lemma adjust_start_x_more_fuel (a : Arrow.t) :
  forall (fuel fuel' : nat) (sx r : Q),
    Arrow.adjust_start_x fuel a sx = Some r ->
    (fuel <= fuel')%nat ->
    Arrow.adjust_start_x fuel' a sx = Some r.
Proof.
  induction fuel as [|fuel IH]; intros fuel' sx r H Hle; [discriminate|].
  destruct fuel' as [|fuel']; [lia|].
  simpl in *. destruct (Arrow.condition a sx); [|exact H].
  apply (IH fuel'); [exact H | lia].
Qed.

Lemma adjust_start_x_result (a : Arrow.t) :
  forall (fuel : nat) (sx r : Q),
    Arrow.adjust_start_x fuel a sx = Some r ->
    exists k : nat,
      (k < fuel)%nat
      /\ r = steps_back k sx
      /\ (forall j, (j < k)%nat -> Arrow.condition a (steps_back j sx) = true)
      /\ Arrow.condition a r = false.
Proof.
  induction fuel as [|fuel IH]; intros sx r H; [discriminate|].
  simpl in H. destruct (Arrow.condition a sx) eqn:C.
  - apply IH in H. destruct H as (k & Hk & Hr & Hin & Hout).
    exists (S k). unfold steps_back in *. split; [lia|].
    split; [now rewrite Nat.iter_succ_r|]. split; [|exact Hout].
    intros [|j] Hj; [exact C|].
    rewrite Nat.iter_succ_r. apply Hin. lia.
  - injection H as <-. exists 0%nat. split; [lia|].
    repeat split; [|exact C].
    intros j Hj. lia.
Qed.

Lemma start_x_fuel_enough (a : Arrow.t) :
  exists r, forall fuel, (Arrow.start_x_fuel a <= fuel)%nat ->
    Arrow.adjust_start_x fuel a (Arrow.initial_start_x a) = Some r.
Proof.
  set (d := (Arrow.initial_start_x a
             - (getX (Bar.dbar (Arrow.from_task a))
                + padding (options (Arrow.gantt a)))) / 10).
  assert (Hd : Arrow.initial_start_x a
               - (getX (Bar.dbar (Arrow.from_task a))
                  + padding (options (Arrow.gantt a)))
               <= 10 * inject_Z (Z.of_nat (Z.to_nat (Qceiling d)))).
  { pose proof (Qle_ceiling d) as Hceil.
    assert (Hz : inject_Z (Qceiling d)
                 <= inject_Z (Z.of_nat (Z.to_nat (Qceiling d)))).
    { rewrite <- Zle_Qle. lia. }
    assert (Hd10 : Arrow.initial_start_x a
                   - (getX (Bar.dbar (Arrow.from_task a))
                      + padding (options (Arrow.gantt a))) == 10 * d)
      by (unfold d; field).
    lra. }
  destruct (adjust_start_x_enough_fuel a _ _ Hd (Arrow.start_x_fuel a))
    as (r & Hr); [unfold Arrow.start_x_fuel; fold d; lia|].
  exists r. intros fuel Hfuel.
  now apply (adjust_start_x_more_fuel a (Arrow.start_x_fuel a)).
Qed.

(** [calculate_path] returns for every arrow: the loop is left after [k]
    steps back, fewer than [start_x_fuel], and the path is the one of the
    locals computed from there. *)
Lemma calculate_path_returns (a : Arrow.t) :
  exists k : nat,
    (k < Arrow.start_x_fuel a)%nat
    /\ (forall j, (j < k)%nat ->
          Arrow.condition a (steps_back j (Arrow.initial_start_x a)) = true)
    /\ Arrow.condition a (steps_back k (Arrow.initial_start_x a)) = false
    /\ forall fuel, (Arrow.start_x_fuel a <= fuel)%nat ->
         let lc :=
           Arrow.locals_after a (steps_back k (Arrow.initial_start_x a)) in
         Arrow.calculate_locals fuel a = Some lc
         /\ Arrow.calculate_path fuel a
            = Some (Arrow.mk (Arrow.gantt a) (Arrow.from_task a)
                             (Arrow.to_task a) (Arrow.path_of a lc)).
Proof.
  destruct (start_x_fuel_enough a) as (r & Hr).
  destruct (adjust_start_x_result a _ _ _ (Hr _ (le_n _)))
    as (k & Hk & Hrk & Hin & Hout).
  subst r. exists k. repeat split; try assumption.
  - unfold Arrow.calculate_locals. now rewrite (Hr fuel).
  - unfold Arrow.calculate_path, Arrow.calculate_locals.
    now rewrite (Hr fuel).
Qed.

(** ** The arrow's local values and its path *)

Lemma double_adjust_result (to_x from_x pad : PrimFloat.float) :
  forall (fuel : nat) (sx r : PrimFloat.float),
    Double.adjust_start_x fuel to_x from_x pad sx = Some r ->
    exists k : nat,
      (k < fuel)%nat
      /\ r = Double.steps_back k sx
      /\ (forall j, (j < k)%nat ->
            Double.condition to_x from_x pad (Double.steps_back j sx) = true)
      /\ Double.condition to_x from_x pad r = false.
Proof.
  induction fuel as [|fuel IH]; intros sx r H; [discriminate|].
  simpl in H. destruct (Double.condition to_x from_x pad sx) eqn:C.
  - apply IH in H. destruct H as (k & Hk & Hr & Hin & Hout).
    exists (Datatypes.S k). unfold Double.steps_back in *. split; [lia|].
    split; [now rewrite Nat.iter_succ_r|]. split; [|exact Hout].
    intros [|j] Hj; [exact C|].
    rewrite Nat.iter_succ_r. apply Hin. lia.
  - injection H as <-. exists 0%nat. split; [lia|].
    split; [reflexivity|]. split; [|exact C].
    intros j Hj. lia.
Qed.

Lemma double_adjust_absorbed (to_x from_x pad sx : PrimFloat.float) :
  Double.condition to_x from_x pad sx = true ->
  (sx - 10)%float = sx ->
  forall fuel, Double.adjust_start_x fuel to_x from_x pad sx = None.
Proof.
  intros Hc Habs. induction fuel as [|fuel IH]; [reflexivity|].
  simpl. rewrite Hc, Habs. exact IH.
Qed.




(** C3: [clockwise] is 1 exactly when the source row is below the target row
    ([from.index > to.index]) and 0 otherwise, so also when
    [from.index < to.index]; [curve_y] is [- curve] in the first case and
    [curve] otherwise; the last arc of the path has [clockwise] as its sweep
    flag. *)
Theorem clockwise_follows_row_order (a : Arrow.t) :
  exists lc : Arrow.locals,
    let fi := task__index (Bar.task (Arrow.from_task a)) in
    let ti := task__index (Bar.task (Arrow.to_task a)) in
    (forall fuel, (Arrow.start_x_fuel a <= fuel)%nat ->
       Arrow.calculate_locals fuel a = Some lc
       /\ Arrow.calculate_path fuel a
          = Some (Arrow.mk (Arrow.gantt a) (Arrow.from_task a)
                           (Arrow.to_task a) (Arrow.path_of a lc)))
    /\ (Arrow.clockwise lc = 1%Z <-> (fi > ti)%Z)
    /\ (Arrow.clockwise lc = 0%Z <-> (fi <= ti)%Z)
    /\ ((fi < ti)%Z -> Arrow.clockwise lc = 0%Z)
    /\ Arrow.curve lc = arrow_curve (options (Arrow.gantt a))
    /\ ((fi > ti)%Z -> Arrow.curve_y lc = - Arrow.curve lc)
    /\ (~ (fi > ti)%Z -> Arrow.curve_y lc = Arrow.curve lc)
    /\ exists r1 r2 dx dy,
         last (Arrow.arcs (Arrow.path_of a lc)) (0, 0, 0%Z, 0, 0)
         = (r1, r2, Arrow.clockwise lc, dx, dy).
Proof.
  destruct (calculate_path_returns a) as (k & _ & _ & _ & Hret).
  exists (Arrow.locals_after a (steps_back k (Arrow.initial_start_x a))).
  cbv zeta. split; [exact Hret|].
  unfold Arrow.locals_after; simpl.
  destruct (Z.gtb_spec (task__index (Bar.task (Arrow.from_task a)))
                       (task__index (Bar.task (Arrow.to_task a))))
    as [Hgt | Hle].
  - repeat split; intros; try reflexivity; try lia; try discriminate.
    unfold Arrow.path_of, Arrow.backward_path, Arrow.forward_path.
    destruct (Arrow.is_backward a); simpl.
    + destruct (Arrow.backward_curve a _) as [[d1 cv] cy]. simpl. eauto.
    + eauto.
  - repeat split; intros; try reflexivity; try lia; try discriminate.
    unfold Arrow.path_of, Arrow.backward_path, Arrow.forward_path.
    destruct (Arrow.is_backward a); simpl.
    + destruct (Arrow.backward_curve a _) as [[d1 cv] cy]. simpl. eauto.
    + eauto.
Qed.

Lemma clockwise_follows_row_order_witness :
  exists lc : Arrow.locals,
    (1 > 0)%Z
    /\ Arrow.calculate_locals 2 (Scenario.arrow 100 1 200 0) = Some lc
    /\ Arrow.clockwise lc = 1%Z
    /\ Arrow.curve_y lc = - Arrow.curve lc.
Proof.
  destruct (clockwise_follows_row_order (Scenario.arrow 100 1 200 0))
    as (lc & Hret & Hcw & _ & _ & _ & Hcy & _).
  simpl in Hcw, Hcy.
  assert (H10 : (1 > 0)%Z) by reflexivity.
  exists lc. split; [exact H10|].
  split; [exact (proj1 (Hret 2%nat (le_n 2)))|].
  split; [exact (proj2 Hcw H10) | exact (Hcy H10)].
Defined.

(** C4, as stated, fails: the path does not start on the mid-line of the
    source row.  For an arrow from a bar in row 0 (its [y] is 59, its height
    20, its mid-line 69) the path starts at the vertical coordinate 79, the
    bar's lower edge. *)
Lemma arrow_start_not_row_midline :
  exists (a' : Arrow.t) (sx sy : Q),
    let a := Scenario.arrow 100 0 200 1 in
    Arrow.calculate_path (Arrow.start_x_fuel a) a = Some a'
    /\ Arrow.path_start (Arrow.path a') = Some (sx, sy)
    /\ sy == 79
    /\ getY (Bar.dbar (Arrow.from_task a))
       + getHeight (Bar.dbar (Arrow.from_task a)) / 2 == 69
    /\ Bar.compute_y (Arrow.gantt a) (Bar.task (Arrow.from_task a))
       + bar_height (options (Arrow.gantt a)) / 2 == 69
    /\ ~ sy == Bar.compute_y (Arrow.gantt a) (Bar.task (Arrow.from_task a))
             + bar_height (options (Arrow.gantt a)) / 2.
Proof.
  eexists. eexists. eexists. cbv zeta.
  split; [vm_compute; reflexivity|].
  split; [vm_compute; reflexivity|].
  repeat split; vm_compute; congruence.
Qed.

(** C4, amended: the path starts at the lower edge of the source bar (the
    [y] of the source row plus the whole bar height) and its tip is the point
    [(to.x - 13, mid-line of the target row)], the [y] of the target row plus
    half the bar height. *)
Theorem arrow_end_points (a : Arrow.t) :
  exists lc : Arrow.locals,
    let g := Arrow.gantt a in
    (forall fuel, (Arrow.start_x_fuel a <= fuel)%nat ->
       Arrow.calculate_locals fuel a = Some lc
       /\ Arrow.calculate_path fuel a
          = Some (Arrow.mk g (Arrow.from_task a) (Arrow.to_task a)
                           (Arrow.path_of a lc)))
    /\ Arrow.path_start (Arrow.path_of a lc)
       = Some (Arrow.start_x lc, Arrow.start_y lc)
    /\ Arrow.start_y lc
       == Bar.compute_y g (Bar.task (Arrow.from_task a))
          + bar_height (options g)
    /\ Arrow.path_tip (Arrow.path_of a lc)
       = Some (Arrow.end_x lc, Arrow.end_y lc)
    /\ Arrow.end_x lc = getX (Bar.dbar (Arrow.to_task a)) - 13
    /\ Arrow.end_y lc
       == Bar.compute_y g (Bar.task (Arrow.to_task a))
          + bar_height (options g) / 2.
Proof.
  destruct (calculate_path_returns a) as (k & _ & _ & _ & Hret).
  exists (Arrow.locals_after a (steps_back k (Arrow.initial_start_x a))).
  cbv zeta. split; [intros fuel Hf; apply (Hret fuel Hf)|].
  assert (Hshape :
    forall lc, Arrow.path_start (Arrow.path_of a lc)
               = Some (Arrow.start_x lc, Arrow.start_y lc)
               /\ Arrow.path_tip (Arrow.path_of a lc)
                  = Some (Arrow.end_x lc, Arrow.end_y lc)).
  { intros lc. unfold Arrow.path_of, Arrow.backward_path, Arrow.forward_path.
    destruct (Arrow.is_backward a); [|split; reflexivity].
    destruct (Arrow.backward_curve a lc) as [[d1 cv] cy]. split; reflexivity. }
  split; [apply Hshape|].
  split; [unfold Bar.compute_y; simpl; field|].
  split; [apply Hshape|].
  split; [reflexivity|].
  unfold Bar.compute_y; simpl; field.
Qed.

(** C6: the backward shape is emitted exactly when
    [to.x <= from.x + padding].  In it, when [padding / 2 - curve] is
    negative, the first vertical drop is 0, every arc has the radius
    [padding / 2], and [curve_y] is [padding / 2] with the sign of the row
    order; otherwise the drop is [padding / 2 - curve] and [curve] and
    [curve_y] are kept. *)
Theorem backward_path_shape (a : Arrow.t) :
  exists lc : Arrow.locals,
    let g := Arrow.gantt a in
    let from_bar := Bar.dbar (Arrow.from_task a) in
    let to_bar := Bar.dbar (Arrow.to_task a) in
    let pad := padding (options g) in
    let below :=
      (task__index (Bar.task (Arrow.from_task a))
       >? task__index (Bar.task (Arrow.to_task a)))%Z in
    (forall fuel, (Arrow.start_x_fuel a <= fuel)%nat ->
       Arrow.calculate_locals fuel a = Some lc
       /\ Arrow.calculate_path fuel a
          = Some (Arrow.mk g (Arrow.from_task a) (Arrow.to_task a)
                           (Arrow.path_of a lc)))
    /\ (Arrow.backward_shaped (Arrow.path_of a lc)
        <-> getX to_bar <= getX from_bar + pad)
    /\ (getX to_bar <= getX from_bar + pad ->
        pad / 2 - arrow_curve (options g) < 0 ->
        let cv := pad / 2 in
        let cy := if below then - cv else cv in
        Arrow.path_of a lc
        = [ Arrow.MoveTo (Arrow.start_x lc) (Arrow.start_y lc);
            Arrow.VertBy 0;
            Arrow.ArcBy cv cv 0 0 1 (- cv) cv;
            Arrow.HorizTo (getX to_bar - pad);
            Arrow.ArcBy cv cv 0 0 (Arrow.clockwise lc) (- cv) cy;
            Arrow.VertTo (getY to_bar + getHeight to_bar / 2 - cy);
            Arrow.ArcBy cv cv 0 0 (Arrow.clockwise lc) cv cy;
            Arrow.LineTo (Arrow.end_x lc) (Arrow.end_y lc) ]
          ++ Arrow.arrow_head)
    /\ (getX to_bar <= getX from_bar + pad ->
        ~ pad / 2 - arrow_curve (options g) < 0 ->
        let cv := arrow_curve (options g) in
        let cy := if below then - cv else cv in
        Arrow.path_of a lc
        = [ Arrow.MoveTo (Arrow.start_x lc) (Arrow.start_y lc);
            Arrow.VertBy (pad / 2 - cv);
            Arrow.ArcBy cv cv 0 0 1 (- cv) cv;
            Arrow.HorizTo (getX to_bar - pad);
            Arrow.ArcBy cv cv 0 0 (Arrow.clockwise lc) (- cv) cy;
            Arrow.VertTo (getY to_bar + getHeight to_bar / 2 - cy);
            Arrow.ArcBy cv cv 0 0 (Arrow.clockwise lc) cv cy;
            Arrow.LineTo (Arrow.end_x lc) (Arrow.end_y lc) ]
          ++ Arrow.arrow_head).
Proof.
  destruct (calculate_path_returns a) as (k & _ & _ & _ & Hret).
  exists (Arrow.locals_after a (steps_back k (Arrow.initial_start_x a))).
  cbv zeta. split; [intros fuel Hf; apply (Hret fuel Hf)|].
  set (lc := Arrow.locals_after a _).
  split; [|split].
  - unfold Arrow.path_of.
    destruct (Arrow.is_backward a) eqn:B; unfold Arrow.is_backward in B.
    + apply leb_le in B. split; [intros _; exact B|]. intros _.
      unfold Arrow.backward_path.
      destruct (Arrow.backward_curve a lc) as [[d1 cv] cy].
      unfold Arrow.backward_shaped.
      do 14 eexists. reflexivity.
    + apply leb_gt in B. split; [|intros H; exfalso; lra].
      intros (sx & sy & d1 & c1 & lf & c2 & cw2 & cy2 & d2 & c3 & cw3 & cy3
              & ex & ey & Heq).
      apply (f_equal (@length _)) in Heq. discriminate Heq.
  - intros Hb Hneg. unfold Arrow.path_of, Arrow.is_backward.
    apply leb_le in Hb. rewrite Hb.
    unfold Arrow.backward_path, Arrow.backward_curve.
    apply ltb_lt in Hneg. simpl Arrow.curve. rewrite Hneg. reflexivity.
  - intros Hb Hneg. unfold Arrow.path_of, Arrow.is_backward.
    apply leb_le in Hb. rewrite Hb.
    unfold Arrow.backward_path, Arrow.backward_curve.
    simpl Arrow.curve.
    destruct (Js.ltb _ 0) eqn:E; [apply ltb_lt in E; contradiction|].
    reflexivity.
Qed.

Lemma backward_path_shape_witness :
  exists lc : Arrow.locals,
    let a := Scenario.tight_arrow 100 0 110 1 in
    let pad := padding (options (Arrow.gantt a)) in
    getX (Bar.dbar (Arrow.to_task a))
    <= getX (Bar.dbar (Arrow.from_task a)) + pad
    /\ pad / 2 - arrow_curve (options (Arrow.gantt a)) < 0
    /\ Arrow.backward_shaped (Arrow.path_of a lc)
    /\ Arrow.arcs (Arrow.path_of a lc)
       = [ (pad / 2, pad / 2, 1%Z, - (pad / 2), pad / 2);
           (pad / 2, pad / 2, Arrow.clockwise lc, - (pad / 2), pad / 2);
           (pad / 2, pad / 2, Arrow.clockwise lc, pad / 2, pad / 2) ].
Proof.
  destruct (backward_path_shape (Scenario.tight_arrow 100 0 110 1))
    as (lc & _ & Hiff & Hneg & _).
  cbv zeta in Hiff, Hneg.
  assert (Hb : getX (Bar.dbar (Arrow.to_task (Scenario.tight_arrow 100 0 110 1)))
               <= getX (Bar.dbar (Arrow.from_task
                                    (Scenario.tight_arrow 100 0 110 1)))
                  + padding (options (Arrow.gantt
                                        (Scenario.tight_arrow 100 0 110 1))))
    by (cbv; discriminate).
  assert (Hn : padding (options (Arrow.gantt
                                   (Scenario.tight_arrow 100 0 110 1))) / 2
               - arrow_curve (options (Arrow.gantt
                                         (Scenario.tight_arrow 100 0 110 1)))
               < 0)
    by reflexivity.
  exists lc. cbv zeta.
  split; [exact Hb|]. split; [exact Hn|].
  split; [exact (proj2 Hiff Hb)|].
  rewrite (Hneg Hb Hn). reflexivity.
Defined.

(** C7: in the forward case ([to.x > from.x + padding]) the forward shape is
    emitted; its one arc has the radius [end_x - start_x] when
    [end_x < start_x + arrow_curve], and the configured [arrow_curve]
    otherwise. *)
Theorem forward_curve_radius (a : Arrow.t) :
  exists lc : Arrow.locals,
    let g := Arrow.gantt a in
    (forall fuel, (Arrow.start_x_fuel a <= fuel)%nat ->
       Arrow.calculate_locals fuel a = Some lc
       /\ Arrow.calculate_path fuel a
          = Some (Arrow.mk g (Arrow.from_task a) (Arrow.to_task a)
                           (Arrow.path_of a lc)))
    /\ (getX (Bar.dbar (Arrow.from_task a)) + padding (options g)
        < getX (Bar.dbar (Arrow.to_task a)) ->
        Arrow.forward_shaped (Arrow.path_of a lc)
        /\ (Arrow.end_x lc < Arrow.start_x lc + arrow_curve (options g) ->
            let r := Arrow.end_x lc - Arrow.start_x lc in
            Arrow.arcs (Arrow.path_of a lc)
            = [(r, r, Arrow.clockwise lc, r, r)])
        /\ (~ Arrow.end_x lc < Arrow.start_x lc + arrow_curve (options g) ->
            let r := arrow_curve (options g) in
            Arrow.arcs (Arrow.path_of a lc)
            = [(r, r, Arrow.clockwise lc, r, r)])).
Proof.
  destruct (calculate_path_returns a) as (k & _ & _ & _ & Hret).
  exists (Arrow.locals_after a (steps_back k (Arrow.initial_start_x a))).
  cbv zeta. split; [intros fuel Hf; apply (Hret fuel Hf)|].
  set (lc := Arrow.locals_after a _).
  intros Hfwd. unfold Arrow.path_of, Arrow.is_backward.
  apply leb_gt in Hfwd. rewrite Hfwd.
  split; [|split].
  - unfold Arrow.forward_path, Arrow.forward_shaped. do 7 eexists. reflexivity.
  - intros Hnear. unfold Arrow.forward_path, Arrow.forward_curve.
    change (Arrow.curve lc) with (arrow_curve (options (Arrow.gantt a))).
    apply ltb_lt in Hnear. rewrite Hnear. reflexivity.
  - intros Hfar. unfold Arrow.forward_path, Arrow.forward_curve.
    change (Arrow.curve lc) with (arrow_curve (options (Arrow.gantt a))).
    destruct (Js.ltb _ _) eqn:E; [apply ltb_lt in E; contradiction|].
    reflexivity.
Qed.

Lemma forward_curve_radius_witness :
  exists lc : Arrow.locals,
    let a := Scenario.arrow 100 0 119 1 in
    getX (Bar.dbar (Arrow.from_task a)) + padding (options (Arrow.gantt a))
    < getX (Bar.dbar (Arrow.to_task a))
    /\ Arrow.end_x lc
       < Arrow.start_x lc + arrow_curve (options (Arrow.gantt a))
    /\ Arrow.forward_shaped (Arrow.path_of a lc)
    /\ Arrow.arcs (Arrow.path_of a lc)
       = [ (Arrow.end_x lc - Arrow.start_x lc,
            Arrow.end_x lc - Arrow.start_x lc,
            Arrow.clockwise lc,
            Arrow.end_x lc - Arrow.start_x lc,
            Arrow.end_x lc - Arrow.start_x lc) ].
Proof.
  destruct (forward_curve_radius (Scenario.arrow 100 0 119 1))
    as (lc & Hret & H).
  cbv zeta in Hret, H.
  assert (Hf : getX (Bar.dbar (Arrow.from_task (Scenario.arrow 100 0 119 1)))
               + padding (options (Arrow.gantt (Scenario.arrow 100 0 119 1)))
               < getX (Bar.dbar (Arrow.to_task (Scenario.arrow 100 0 119 1))))
    by reflexivity.
  destruct (H Hf) as (Hshape & Hnear & _).
  assert (Hlc : Some (Arrow.locals_after (Scenario.arrow 100 0 119 1)
                        (steps_back 1 (Arrow.initial_start_x
                                         (Scenario.arrow 100 0 119 1))))
                = Some lc).
  { rewrite <- (proj1 (Hret 2%nat (le_n 2))). reflexivity. }
  injection Hlc as Hlc.
  assert (Hn : Arrow.end_x lc
               < Arrow.start_x lc
                 + arrow_curve (options (Arrow.gantt
                                           (Scenario.arrow 100 0 119 1))))
    by (rewrite <- Hlc; reflexivity).
  exists lc. cbv zeta.
  split; [exact Hf|]. split; [exact Hn|].
  split; [exact Hshape | exact (Hnear Hn)].
Defined.

(** * Further properties of the code *)

(** ** More on [calculate_progress_width] *)

Lemma get_ignored_region_proper (g : Gantt) (pos pos' : Q) :
  pos == pos' -> get_ignored_region g pos = get_ignored_region g pos'.
Proof.
  intros H. unfold get_ignored_region. apply filter_ext.
  intros val. now rewrite H.
Qed.

Lemma count_ignored_nonneg (g : Gantt) (lo hi : Q) :
  0 <= Bar.count_ignored g lo hi.
Proof.
  rewrite count_ignored_spec.
  change 0 with (inject_Z 0). rewrite <- Zle_Qle. lia.
Qed.

Lemma count_ignored_mono (g : Gantt) (lo hi hi' : Q) :
  hi <= hi' -> Bar.count_ignored g lo hi <= Bar.count_ignored g lo hi'.
Proof.
  intros H. rewrite !count_ignored_spec. rewrite <- Zle_Qle.
  apply Nat2Z.inj_le. unfold ProgressSpec.ignored_in.
  apply filter_length_mono. intros val _ Hval.
  apply andb_true_iff in Hval. destruct Hval as [Hlo Hhi].
  apply andb_true_iff. split; [exact Hlo|].
  apply negb_true_iff in Hhi. apply negb_true_iff.
  destruct (Qle_bool hi' val) eqn:E; [|reflexivity].
  apply Qle_bool_iff in E.
  assert (Hle : hi <= val) by lra.
  apply Qle_bool_iff in Hle. congruence.
Qed.

Lemma count_ignored_empty_span (g : Gantt) (lo hi : Q) :
  hi <= lo -> Bar.count_ignored g lo hi == 0.
Proof.
  intros H. rewrite count_ignored_spec. unfold ProgressSpec.ignored_in.
  assert (Hnil : filter (fun val => Qle_bool lo val && negb (Qle_bool hi val))
                        (ignored_positions (config g)) = []).
  { induction (ignored_positions (config g)) as [|val l IH]; [reflexivity|].
    simpl. destruct (Qle_bool lo val) eqn:E1; simpl; [|exact IH].
    apply Qle_bool_iff in E1.
    assert (Hle : hi <= val) by lra.
    apply Qle_bool_iff in Hle. rewrite Hle. simpl. exact IH. }
  rewrite Hnil. reflexivity.
Qed.

(** X1: without ignored positions the progress width is the plain share
    [width * progress / 100] of the bar, for any column width. *)
Theorem progress_width_without_ignored (b : Bar.t) (p : Q) (fuel : nat) :
  ignored_positions (config (Bar.gantt b)) = [] ->
  task_progress (Bar.task b) = Js.num p ->
  exists (b' : Bar.t) (r : Q),
    Bar.calculate_progress_width (S fuel) b = Some (b', Js.num r)
    /\ Bar.progress_width b' = Js.num r
    /\ r == getWidth (Bar.dbar b) * p / 100.
Proof.
  intros Hnil Hp.
  unfold Bar.calculate_progress_width, Bar.progress_width_of,
    Bar.count_ignored.
  rewrite Hp, Hnil. simpl Js.to_number. cbv iota beta. simpl fold_left.
  unfold Bar.extend_over_ignored, get_ignored_region. rewrite Hnil. simpl.
  eexists. eexists. split; [reflexivity|]. split; [reflexivity|].
  field.
Qed.

Lemma progress_width_without_ignored_witness :
  exists (b' : Bar.t) (r : Q),
    Bar.calculate_progress_width 1
      (Bar.mk (mkGantt Scenario.options (mkConfig 50 30 1 []) 0%Z)
              (Scenario.task (Js.num 50) 0) false 20 15 0 59 5 3 150
              (mkRect 0 59 150 20) Js.undefined)
    = Some (b', Js.num r)
    /\ Bar.progress_width b' = Js.num r
    /\ r == 150 * 50 / 100.
Proof.
  exact (progress_width_without_ignored
           (Bar.mk (mkGantt Scenario.options (mkConfig 50 30 1 []) 0%Z)
                   (Scenario.task (Js.num 50) 0) false 20 15 0 59 5 3 150
                   (mkRect 0 59 150 20) Js.undefined)
           50 0%nat eq_refl eq_refl).
Defined.

(** X2: with a positive column width, a progress in [[0,100]] and an
    ignored area counted inside the bar that is no wider than the bar,
    [calculate_progress_width] returns the value [pw] its loop starts from,
    which lies between 0 and the bar's width, with [k] whole columns added,
    where [k] is the number of turns of the loop: at most the number of
    ignored positions, and 0 when the first right edge is outside every
    ignored region, in which case the result is at most the width. *)
Theorem progress_width_over_width_by_columns
  (b : Bar.t) (p : Q) (fuel : nat) :
  let g := Bar.gantt b in
  let c := column_width (config g) in
  let w := getWidth (Bar.dbar b) in
  let pw := progress_start g (Bar.x b) w p in
  0 < c ->
  0 <= p /\ p <= 100 ->
  Bar.count_ignored g (Bar.x b) (Bar.x b + w) * c <= w ->
  task_progress (Bar.task b) = Js.num p ->
  (progress_fuel g <= fuel)%nat ->
  exists (b' : Bar.t) (r : Q) (k : nat),
    Bar.calculate_progress_width fuel b = Some (b', Js.num r)
    /\ 0 <= pw /\ pw <= w
    /\ (k <= length (ignored_positions (config g)))%nat
    /\ r = columns_added c k pw
    /\ (forall j, (j < k)%nat ->
          get_ignored_region g (Bar.x b + columns_added c j pw) <> [])
    /\ get_ignored_region g (Bar.x b + r) = []
    /\ (get_ignored_region g (Bar.x b + pw) = [] -> r = pw /\ r <= w)
    /\ r <= w + inject_Z (Z.of_nat (length (ignored_positions (config g)))) * c.
Proof.
  cbv zeta. unfold progress_start.
  set (g := Bar.gantt b). set (c := column_width (config g)).
  set (w := getWidth (Bar.dbar b)).
  set (n := Bar.count_ignored g (Bar.x b) (Bar.x b + w)).
  set (pw1 := ((w - n * c) * p) / 100).
  set (m := Bar.count_ignored g (Bar.x b) (Bar.x b + pw1)).
  set (pw := pw1 + m * c).
  intros Hc [Hp0 Hp100] Harea Hp Hfuel.
  destruct (extend_over_ignored_returns g (Bar.x b) pw Hc) as (r & Hret).
  destruct (extend_over_ignored_result g (Bar.x b) _ _ _
              (Hret _ (le_n _))) as (k & Hk & Hrk & Hin & Hout).
  fold c in Hrk, Hin.
  assert (Hcall : Bar.calculate_progress_width fuel b
                  = Some (Bar.mk (Bar.gantt b) (Bar.task b) (Bar.invalid b)
                            (Bar.height b) (Bar.image_size b) (Bar.x b)
                            (Bar.y b) (Bar.duration b) (Bar.corner_radius b)
                            (Bar.width b) (Bar.dbar b) (Js.num r),
                          Js.num r)).
  { unfold Bar.calculate_progress_width. rewrite Hp.
    simpl Js.to_number. cbv iota beta.
    change (Bar.progress_width_of fuel (Bar.gantt b) (Bar.x b)
              (getWidth (Bar.dbar b)) p)
      with (Bar.extend_over_ignored fuel g (Bar.x b) pw).
    rewrite (Hret fuel Hfuel). reflexivity. }
  assert (Hup : 0 <= (w - n * c) * p)
    by (apply Qmult_le_0_compat; lra).
  assert (Hup' : 0 <= (w - n * c) * (100 - p))
    by (apply Qmult_le_0_compat; lra).
  assert (H100 : pw1 * 100 == (w - n * c) * p) by (unfold pw1; field).
  assert (H1lo : 0 <= pw1) by lra.
  assert (H1hi : pw1 <= w - n * c) by lra.
  assert (Hn : 0 <= n) by apply count_ignored_nonneg.
  assert (Hm : 0 <= m) by apply count_ignored_nonneg.
  assert (Hnc : 0 <= n * c) by (apply Qmult_le_0_compat; lra).
  assert (Hmn : m <= n) by (apply count_ignored_mono; lra).
  assert (Hmc : 0 <= m * c) by (apply Qmult_le_0_compat; lra).
  assert (Hnmc : 0 <= (n - m) * c) by (apply Qmult_le_0_compat; lra).
  assert (Hkl : (k <= length (ignored_positions (config g)))%nat)
    by (unfold progress_fuel in Hk; lia).
  assert (Hre : r == pw1 + m * c + inject_Z (Z.of_nat k) * c)
    by (rewrite Hrk; unfold pw; apply columns_added_eq).
  assert (Hkq : inject_Z (Z.of_nat k)
                <= inject_Z (Z.of_nat (length (ignored_positions (config g)))))
    by (rewrite <- Zle_Qle; lia).
  assert (Hk0 : 0 <= inject_Z (Z.of_nat k))
    by (change 0 with (inject_Z 0); rewrite <- Zle_Qle; lia).
  assert (Hkc : 0 <= (inject_Z (Z.of_nat (length (ignored_positions (config g))))
                      - inject_Z (Z.of_nat k)) * c)
    by (apply Qmult_le_0_compat; lra).
  eexists. exists r, k. split; [exact Hcall|].
  split; [unfold pw; lra|]. split; [unfold pw; lra|].
  split; [exact Hkl|]. split; [exact Hrk|].
  split; [exact Hin|]. split; [exact Hout|]. split.
  - intros Hclear. destruct k as [|k].
    + split; [exact Hrk | rewrite Hrk; unfold pw; simpl; lra].
    + exfalso. apply (Hin 0%nat); [lia | exact Hclear].
  - lra.
Qed.

Lemma progress_width_over_width_by_columns_witness :
  let b := Scenario.bar 0 59 150 (Js.num 50) 0 in
  0 < column_width (config (Bar.gantt b))
  /\ (0 <= 50 /\ 50 <= 100)
  /\ Bar.count_ignored (Bar.gantt b) (Bar.x b) (Bar.x b + 150) * 30 <= 150
  /\ exists (b' : Bar.t) (r : Q) (k : nat),
       Bar.calculate_progress_width 2 b = Some (b', Js.num r)
       /\ (k <= 1)%nat
       /\ r = columns_added 30 k (progress_start (Bar.gantt b) 0 150 50)
       /\ r <= 150 + 1 * 30.
Proof.
  cbv zeta.
  assert (Hc : 0 < column_width
                     (config (Bar.gantt (Scenario.bar 0 59 150 (Js.num 50) 0))))
    by reflexivity.
  assert (Hp : 0 <= 50 /\ 50 <= 100) by (split; cbv; discriminate).
  assert (Ha : Bar.count_ignored
                 (Bar.gantt (Scenario.bar 0 59 150 (Js.num 50) 0))
                 (Bar.x (Scenario.bar 0 59 150 (Js.num 50) 0))
                 (Bar.x (Scenario.bar 0 59 150 (Js.num 50) 0) + 150) * 30
               <= 150)
    by (cbv; discriminate).
  destruct (progress_width_over_width_by_columns
              (Scenario.bar 0 59 150 (Js.num 50) 0) 50 2 Hc Hp Ha
              eq_refl (le_n 2))
    as (b' & r & k & Hret & _ & _ & Hk & Hr & _ & _ & _ & Hle).
  split; [exact Hc|]. split; [exact Hp|]. split; [exact Ha|].
  exists b', r, k. split; [exact Hret|]. split; [exact Hk|].
  split; [exact Hr | exact Hle].
Defined.

(** X3: a bar with progress 0 whose left edge is in no ignored region has
    the progress width 0, whatever lies further right. *)
Theorem progress_width_of_zero_progress (b : Bar.t) (p : Q) (fuel : nat) :
  task_progress (Bar.task b) = Js.num p ->
  p == 0 ->
  get_ignored_region (Bar.gantt b) (Bar.x b) = [] ->
  exists (b' : Bar.t) (r : Q),
    Bar.calculate_progress_width (S fuel) b = Some (b', Js.num r)
    /\ r == 0.
Proof.
  intros Hp H0 Hclear.
  unfold Bar.calculate_progress_width, Bar.progress_width_of.
  rewrite Hp. simpl Js.to_number. cbv iota beta.
  set (g := Bar.gantt b) in *. set (c := column_width (config g)).
  set (w := getWidth (Bar.dbar b)).
  set (n := Bar.count_ignored g (Bar.x b) (Bar.x b + w)).
  set (pw1 := ((w - n * c) * p) / 100).
  assert (H1 : pw1 == 0) by (unfold pw1; rewrite H0; field).
  assert (Hm : Bar.count_ignored g (Bar.x b) (Bar.x b + pw1) == 0)
    by (apply count_ignored_empty_span; lra).
  assert (H2 : pw1 + Bar.count_ignored g (Bar.x b) (Bar.x b + pw1) * c == 0)
    by (rewrite Hm, H1; ring).
  simpl Bar.extend_over_ignored.
  rewrite (get_ignored_region_proper g _ (Bar.x b)) by (rewrite H2; ring).
  rewrite Hclear. simpl.
  eexists. eexists. split; [reflexivity | exact H2].
Qed.

Lemma progress_width_of_zero_progress_witness :
  exists (b' : Bar.t) (r : Q),
    Bar.calculate_progress_width 1 (Scenario.bar 0 59 150 (Js.num 0) 0)
    = Some (b', Js.num r)
    /\ r == 0.
Proof.
  exact (progress_width_of_zero_progress
           (Scenario.bar 0 59 150 (Js.num 0) 0) 0 0%nat
           eq_refl (Qeq_refl 0) eq_refl).
Defined.

(** ** Handles, label and thumbnail *)

Lemma geometry_dbar (date_diff : Date -> Date -> Q) (fuel : nat)
  (b b1 : Bar.t) :
  Bar.geometry date_diff fuel b = Some b1 ->
  Bar.dbar b1 = mkRect (Bar.x b1) (Bar.y b1) (Bar.width b1) (Bar.height b1).
Proof.
  unfold Bar.geometry, Bar.draw_progress_bar.
  destruct (Bar.invalid _).
  - intros H. injection H as <-. reflexivity.
  - unfold Bar.calculate_progress_width.
    destruct (match Js.to_number _ with Some _ => _ | None => _ end);
      simpl; [|discriminate].
    intros H. injection H as <-. reflexivity.
Qed.

(** X4: on a bar the geometry pass returned, valid and not read-only,
    [draw_resize_handles] pushes two side handles unless the dates are
    read-only and one progress handle unless the progress is; the side
    handles are centred on the right and left edge of the bar, the progress
    handle on the right end of the progress, and all of them on the bar's
    vertical mid-line. *)
Theorem resize_handles_centred
  (date_diff : Date -> Date -> Q) (fuel : nat) (b b1 : Bar.t)
  (acc : BarDraw.Access) (pw : Q) :
  Bar.geometry date_diff fuel b = Some b1 ->
  Bar.invalid b1 = false ->
  BarDraw.readonly acc = false ->
  Bar.progress_width b1 = Js.num pw ->
  exists hs : list BarDraw.handle,
    BarDraw.draw_resize_handles acc b1 (BarDraw.bar_progress b1 pw) = Some hs
    /\ length hs
       = ((if BarDraw.readonly_dates acc then 0 else 2)
          + (if BarDraw.readonly_progress acc then 0 else 1))%nat
    /\ forall h, In h hs ->
         Pen.same (BarDraw.centre h)
           (match h with
            | BarDraw.HandleRight _ => Bar.x b1 + Bar.width b1
            | BarDraw.HandleLeft _ => Bar.x b1
            | BarDraw.HandleProgress _ _ _ => Bar.x b1 + pw
            end,
            Bar.y b1 + Bar.height b1 / 2).
Proof.
  intros Hgeo Hvalid Hrw Hpw.
  pose proof (geometry_dbar date_diff fuel b b1 Hgeo) as Hbar.
  unfold BarDraw.draw_resize_handles. rewrite Hvalid, Hrw, Hbar. simpl orb.
  cbv iota. eexists. split; [reflexivity|].
  split.
  - destruct (BarDraw.readonly_dates acc), (BarDraw.readonly_progress acc);
      reflexivity.
  - intros h Hin. apply in_app_or in Hin.
    destruct Hin as [Hin | Hin].
    + destruct (BarDraw.readonly_dates acc); simpl in Hin; [contradiction|].
      destruct Hin as [<- | [<- | []]];
        unfold Pen.same, BarDraw.centre, BarDraw.getEndX; simpl;
        split; field.
    + destruct (BarDraw.readonly_progress acc); simpl in Hin; [contradiction|].
      destruct Hin as [<- | []].
      unfold Pen.same, BarDraw.centre, BarDraw.getEndX; simpl.
      split; [reflexivity | field].
Qed.

Lemma resize_handles_centred_witness :
  exists hs : list BarDraw.handle,
    Bar.geometry Scenario.date_diff 2 (Scenario.bar 7 3 11 (Js.num 250) 2)
    = Some Sample.drawn_bar
    /\ BarDraw.draw_resize_handles (BarDraw.mkAccess false false false)
         Sample.drawn_bar
         (BarDraw.bar_progress Sample.drawn_bar Sample.drawn_progress_width)
       = Some hs
    /\ length hs = 3%nat
    /\ forall h, In h hs -> snd (BarDraw.centre h) == 145.
Proof.
  assert (Hgeo : Bar.geometry Scenario.date_diff 2
                   (Scenario.bar 7 3 11 (Js.num 250) 2)
                 = Some Sample.drawn_bar) by reflexivity.
  destruct (resize_handles_centred Scenario.date_diff 2
              (Scenario.bar 7 3 11 (Js.num 250) 2) Sample.drawn_bar
              (BarDraw.mkAccess false false false)
              Sample.drawn_progress_width Hgeo eq_refl eq_refl eq_refl)
    as (hs & Hhs & Hlen & Hc).
  exists hs. split; [exact Hgeo|]. split; [exact Hhs|].
  split; [exact Hlen|].
  intros h Hin. destruct (Hc h Hin) as [_ Hy]. rewrite Hy. reflexivity.
Defined.

(** X5: after [prepare_values] the thumbnail box is a square of side
    [bar_height - 5] that starts 2 pixels below the bar's upper edge and ends
    3 pixels above its lower edge, and the label of a bar with a thumbnail is
    put at [x + bar_height], on the bar's vertical mid-line. *)
Theorem thumbnail_inside_bar (date_diff : Date -> Date -> Q) (b : Bar.t) :
  let b1 := Bar.prepare_values date_diff b in
  let t := BarDraw.draw_thumbnail b1 in
  let h := bar_height (options (Bar.gantt b)) in
  getWidth t = h - 5
  /\ getHeight t = h - 5
  /\ getY t == Bar.y b1 + 2
  /\ getY t + getHeight t == Bar.y b1 + Bar.height b1 - 3
  /\ getX t == Bar.x b1 + 10
  /\ Pen.same (BarDraw.draw_label true b1)
              (Bar.x b1 + h, Bar.y b1 + Bar.height b1 / 2).
Proof.
  cbv zeta. unfold BarDraw.draw_thumbnail, BarDraw.draw_label, Pen.same.
  simpl. repeat split; try reflexivity; ring.
Qed.

(** ** More on the arrow's path *)

Lemma calculate_locals_inv (a : Arrow.t) (fuel : nat) (lc : Arrow.locals) :
  Arrow.calculate_locals fuel a = Some lc ->
  exists k : nat,
    lc = Arrow.locals_after a (steps_back k (Arrow.initial_start_x a))
    /\ (forall j, (j < k)%nat ->
          Arrow.condition a (steps_back j (Arrow.initial_start_x a)) = true)
    /\ Arrow.condition a (steps_back k (Arrow.initial_start_x a)) = false.
Proof.
  unfold Arrow.calculate_locals.
  destruct (Arrow.adjust_start_x fuel a (Arrow.initial_start_x a))
    as [s|] eqn:E; simpl; [|discriminate].
  intros H. injection H as <-.
  destruct (adjust_start_x_result a _ _ _ E) as (k & _ & Hs & Hin & Hout).
  subst s. now exists k.
Qed.

Lemma calculate_path_inv (a a' : Arrow.t) (fuel : nat) :
  Arrow.calculate_path fuel a = Some a' ->
  exists lc : Arrow.locals,
    Arrow.calculate_locals fuel a = Some lc
    /\ Arrow.path a' = Arrow.path_of a lc.
Proof.
  unfold Arrow.calculate_path.
  destruct (Arrow.calculate_locals fuel a) as [lc|]; simpl; [|discriminate].
  intros H. injection H as <-. now exists lc.
Qed.

(** X6: the arrow leaves the source bar at most 10 pixels left of its
    middle and, once it was stepped back at all, less than 20 pixels left of
    [from.x + padding]; it is not stepped back when the target starts at
    least [padding] right of the middle of the source, nor when that middle
    is within [padding] of the source's left edge. *)
Theorem start_x_bounds (a : Arrow.t) (fuel : nat) (lc : Arrow.locals) :
  Arrow.calculate_locals fuel a = Some lc ->
  let from_x := getX (Bar.dbar (Arrow.from_task a)) in
  let to_x := getX (Bar.dbar (Arrow.to_task a)) in
  let pad := padding (options (Arrow.gantt a)) in
  let middle := from_x + getWidth (Bar.dbar (Arrow.from_task a)) / 2 in
  Arrow.start_x lc <= middle - 10
  /\ (Arrow.start_x lc = middle - 10
      \/ from_x + pad - 20 < Arrow.start_x lc)
  /\ (middle + pad <= to_x -> Arrow.start_x lc = middle - 10)
  /\ (middle <= from_x + pad -> Arrow.start_x lc = middle - 10).
Proof.
  intros Hlc. cbv zeta.
  destruct (calculate_locals_inv a fuel lc Hlc) as (k & -> & Hin & Hout).
  fold (Arrow.initial_start_x a). simpl Arrow.start_x.
  assert (Hk : steps_back k (Arrow.initial_start_x a)
               == Arrow.initial_start_x a - 10 * inject_Z (Z.of_nat k))
    by apply steps_back_eq.
  assert (Hk0 : 0 <= inject_Z (Z.of_nat k))
    by (change 0 with (inject_Z 0); rewrite <- Zle_Qle; lia).
  split; [lra|].
  destruct k as [|k].
  - split; [left; reflexivity|]. split; intros _; reflexivity.
  - assert (H0 : Arrow.condition a (Arrow.initial_start_x a) = true)
      by (apply (Hin 0%nat); lia).
    assert (Hlast : Arrow.condition a (steps_back k (Arrow.initial_start_x a))
                    = true) by (apply Hin; lia).
    apply condition_iff in H0. apply condition_iff in Hlast.
    split; [right; simpl; simpl in Hlast; lra|].
    split; intros H; exfalso; lra.
Qed.

Lemma start_x_bounds_witness :
  exists lc : Arrow.locals,
    Arrow.calculate_locals 2 (Scenario.arrow 100 0 110 1) = Some lc
    /\ Arrow.start_x lc <= 100 + 50 / 2 - 10
    /\ 100 + 18 - 20 < Arrow.start_x lc.
Proof.
  assert (Hlc : Arrow.calculate_locals 2 (Scenario.arrow 100 0 110 1)
                = Some (Arrow.locals_after (Scenario.arrow 100 0 110 1)
                          (100 + 50 / 2 - 10)))
    by reflexivity.
  destruct (start_x_bounds (Scenario.arrow 100 0 110 1) 2 _ Hlc)
    as (Hle & _ & _ & _).
  eexists. split; [exact Hlc|]. split; [exact Hle | reflexivity].
Defined.

(** X7: in the forward shape the arc's radius is the smaller of
    [arrow_curve] and [end_x - start_x], so the arc ends at or before the
    tip: [start_x + radius <= end_x].  With a padding that is not negative
    the tip is at most 3 pixels left of [start_x], so the radius, which can
    be negative, is not below the smaller of [arrow_curve] and -3. *)
Theorem forward_arc_before_tip (a a' : Arrow.t) (fuel : nat) :
  Arrow.calculate_path fuel a = Some a' ->
  getX (Bar.dbar (Arrow.from_task a)) + padding (options (Arrow.gantt a))
  < getX (Bar.dbar (Arrow.to_task a)) ->
  exists (sx sy off r : Q) (cw : Z) (ex ey : Q),
    Arrow.path a'
    = [ Arrow.MoveTo sx sy; Arrow.VertTo off; Arrow.ArcBy r r 0 0 cw r r;
        Arrow.LineTo ex ey ] ++ Arrow.arrow_head
    /\ r == Qmin (arrow_curve (options (Arrow.gantt a))) (ex - sx)
    /\ r <= arrow_curve (options (Arrow.gantt a))
    /\ fst (Pen.after 3 (Arrow.path a')) == sx + r
    /\ sx + r <= ex
    /\ (0 <= padding (options (Arrow.gantt a)) ->
        -3 <= ex - sx
        /\ Qmin (arrow_curve (options (Arrow.gantt a))) (-3) <= r).
Proof.
  intros Hret Hfwd.
  destruct (calculate_path_inv a a' fuel Hret) as (lc & Hlc & ->).
  destruct (calculate_locals_inv a fuel lc Hlc) as (k & -> & _ & Hout).
  unfold Arrow.path_of, Arrow.is_backward.
  apply leb_gt in Hfwd. rewrite Hfwd. apply leb_gt in Hfwd.
  set (s := steps_back k (Arrow.initial_start_x a)) in *.
  unfold Arrow.forward_path.
  do 7 eexists. split; [reflexivity|].
  unfold Arrow.forward_curve. simpl.
  set (cv := arrow_curve (options (Arrow.gantt a))).
  set (ex := getX (Bar.dbar (Arrow.to_task a)) - 13).
  assert (Htip : 0 <= padding (options (Arrow.gantt a)) ->
                 -3 <= ex - (s - 10)).
  { intros Hpad. unfold ex.
    assert (Hc : ~ (getX (Bar.dbar (Arrow.to_task a))
                    < s + padding (options (Arrow.gantt a))
                    /\ getX (Bar.dbar (Arrow.from_task a))
                       + padding (options (Arrow.gantt a)) < s))
      by (rewrite <- condition_iff, Hout; discriminate).
    destruct (Qlt_le_dec (getX (Bar.dbar (Arrow.to_task a)))
                         (s + padding (options (Arrow.gantt a))));
      destruct (Qlt_le_dec (getX (Bar.dbar (Arrow.from_task a))
                            + padding (options (Arrow.gantt a))) s);
      try lra; exfalso; apply Hc; split; assumption. }
  pose proof (Q.le_min_l cv (-3)) as Hminl.
  pose proof (Q.le_min_r cv (-3)) as Hminr.
  destruct (Js.ltb ex (s - 10 + cv)) eqn:E;
    [apply ltb_lt in E | apply ltb_ge in E].
  - split; [rewrite Q.min_r by lra; reflexivity|].
    split; [lra|]. split; [reflexivity|]. split; [lra|].
    intros Hpad. specialize (Htip Hpad). split; lra.
  - split; [rewrite Q.min_l by lra; reflexivity|].
    split; [lra|]. split; [reflexivity|]. split; [lra|].
    intros Hpad. specialize (Htip Hpad). split; lra.
Qed.

Lemma forward_arc_before_tip_witness :
  exists (a' : Arrow.t) (sx sy off r : Q) (cw : Z) (ex ey : Q),
    Arrow.calculate_path 2 (Scenario.arrow 100 0 119 1) = Some a'
    /\ 100 + 18 < 119
    /\ Arrow.path a'
       = [ Arrow.MoveTo sx sy; Arrow.VertTo off; Arrow.ArcBy r r 0 0 cw r r;
           Arrow.LineTo ex ey ] ++ Arrow.arrow_head
    /\ r <= 5
    /\ sx + r <= ex.
Proof.
  assert (Hret : Arrow.calculate_path 2 (Scenario.arrow 100 0 119 1)
                 = Some (Arrow.mk Scenario.gantt
                           (Arrow.from_task (Scenario.arrow 100 0 119 1))
                           (Arrow.to_task (Scenario.arrow 100 0 119 1))
                           (Arrow.path_of (Scenario.arrow 100 0 119 1)
                              (Arrow.locals_after (Scenario.arrow 100 0 119 1)
                                 (100 + 50 / 2 - 10)))))
    by reflexivity.
  assert (Hf : 100 + 18 < 119) by reflexivity.
  destruct (forward_arc_before_tip (Scenario.arrow 100 0 119 1) _ 2 Hret Hf)
    as (sx & sy & off & r & cw & ex & ey & Hp & _ & Hr & _ & Hle & _).
  eexists. exists sx, sy, off, r, cw, ex, ey.
  split; [exact Hret|]. split; [exact Hf|]. split; [exact Hp|].
  split; [exact Hr | exact Hle].
Defined.

(** X8: in the backward shape the path has 11 commands; whatever the curve,
    its horizontal run lies half a padding below the start, and the last
    arc ends [padding] left of the target bar on that bar's vertical
    mid-line. *)
Theorem backward_path_trace (a a' : Arrow.t) (fuel : nat) :
  Arrow.calculate_path fuel a = Some a' ->
  getX (Bar.dbar (Arrow.to_task a))
  <= getX (Bar.dbar (Arrow.from_task a)) + padding (options (Arrow.gantt a)) ->
  exists sx sy : Q,
    let to_bar := Bar.dbar (Arrow.to_task a) in
    let pad := padding (options (Arrow.gantt a)) in
    Arrow.path_start (Arrow.path a') = Some (sx, sy)
    /\ length (Arrow.path a') = 11%nat
    /\ snd (Pen.after 3 (Arrow.path a')) == sy + pad / 2
    /\ Pen.same (Pen.after 4 (Arrow.path a')) (getX to_bar - pad, sy + pad / 2)
    /\ Pen.same (Pen.after 7 (Arrow.path a'))
                (getX to_bar - pad, getY to_bar + getHeight to_bar / 2).
Proof.
  intros Hret Hback.
  destruct (calculate_path_inv a a' fuel Hret) as (lc & _ & ->).
  unfold Arrow.path_of, Arrow.is_backward.
  apply leb_le in Hback. rewrite Hback.
  unfold Arrow.backward_path, Arrow.backward_curve.
  exists (Arrow.start_x lc), (Arrow.start_y lc). cbv zeta.
  destruct (Js.ltb (padding (options (Arrow.gantt a)) / 2 - Arrow.curve lc) 0);
    unfold Pen.after, Pen.same; simpl;
    (split; [reflexivity|]); (split; [reflexivity|]);
    repeat split; field.
Qed.

Lemma backward_path_trace_witness :
  exists (a' : Arrow.t) (sx sy : Q),
    Arrow.calculate_path 2 (Scenario.tight_arrow 100 0 110 1) = Some a'
    /\ 110 <= 100 + 18
    /\ Arrow.path_start (Arrow.path a') = Some (sx, sy)
    /\ snd (Pen.after 3 (Arrow.path a')) == sy + 18 / 2
    /\ Pen.same (Pen.after 7 (Arrow.path a')) (110 - 18, 97 + 20 / 2).
Proof.
  assert (Hret : Arrow.calculate_path 2 (Scenario.tight_arrow 100 0 110 1)
                 = Some (Arrow.mk
                           (Arrow.gantt (Scenario.tight_arrow 100 0 110 1))
                           (Arrow.from_task (Scenario.tight_arrow 100 0 110 1))
                           (Arrow.to_task (Scenario.tight_arrow 100 0 110 1))
                           (Arrow.path_of (Scenario.tight_arrow 100 0 110 1)
                              (Arrow.locals_after
                                 (Scenario.tight_arrow 100 0 110 1)
                                 (100 + 50 / 2 - 10)))))
    by reflexivity.
  assert (Hb : 110 <= 100 + 18) by (cbv; discriminate).
  destruct (backward_path_trace (Scenario.tight_arrow 100 0 110 1) _ 2
              Hret Hb) as (sx & sy & Hs & _ & H3 & _ & H7).
  eexists. exists sx, sy.
  split; [exact Hret|]. split; [exact Hb|]. split; [exact Hs|].
  split; [exact H3|].
  destruct H7 as [H7x H7y]. split; [rewrite H7x | rewrite H7y]; reflexivity.
Defined.

(** X9: in the forward shape the arc ends at the height of the tip when the
    source row is not below the target row, so the last segment is
    horizontal; when the source row is below, the arc ends two radii past
    the height of the tip. *)
Theorem forward_arc_height (a a' : Arrow.t) (fuel : nat) :
  Arrow.calculate_path fuel a = Some a' ->
  getX (Bar.dbar (Arrow.from_task a)) + padding (options (Arrow.gantt a))
  < getX (Bar.dbar (Arrow.to_task a)) ->
  exists (r : Q) (cw : Z) (ex ey : Q),
    let fi := task__index (Bar.task (Arrow.from_task a)) in
    let ti := task__index (Bar.task (Arrow.to_task a)) in
    Arrow.arcs (Arrow.path a') = [(r, r, cw, r, r)]
    /\ Arrow.path_tip (Arrow.path a') = Some (ex, ey)
    /\ ((fi <= ti)%Z -> snd (Pen.after 3 (Arrow.path a')) == ey)
    /\ ((fi > ti)%Z -> snd (Pen.after 3 (Arrow.path a')) == ey + 2 * r).
Proof.
  intros Hret Hfwd.
  destruct (calculate_path_inv a a' fuel Hret) as (lc & Hlc & ->).
  destruct (calculate_locals_inv a fuel lc Hlc) as (k & -> & _ & _).
  unfold Arrow.path_of, Arrow.is_backward.
  apply leb_gt in Hfwd. rewrite Hfwd.
  unfold Arrow.forward_path.
  do 4 eexists. cbv zeta.
  split; [reflexivity|]. split; [reflexivity|].
  unfold Pen.after. simpl.
  destruct (Z.gtb_spec (task__index (Bar.task (Arrow.from_task a)))
                       (task__index (Bar.task (Arrow.to_task a))))
    as [Hgt | Hle];
    split; intros Hrow; try lia; ring.
Qed.

Lemma forward_arc_height_witness :
  exists (a' : Arrow.t) (r : Q) (cw : Z) (ex ey : Q),
    Arrow.calculate_path 2 (Scenario.arrow 100 0 200 1) = Some a'
    /\ 100 + 18 < 200
    /\ (0 <= 1)%Z
    /\ Arrow.arcs (Arrow.path a') = [(r, r, cw, r, r)]
    /\ Arrow.path_tip (Arrow.path a') = Some (ex, ey)
    /\ snd (Pen.after 3 (Arrow.path a')) == ey.
Proof.
  assert (Hret : Arrow.calculate_path 2 (Scenario.arrow 100 0 200 1)
                 = Some (Arrow.mk Scenario.gantt
                           (Arrow.from_task (Scenario.arrow 100 0 200 1))
                           (Arrow.to_task (Scenario.arrow 100 0 200 1))
                           (Arrow.path_of (Scenario.arrow 100 0 200 1)
                              (Arrow.locals_after (Scenario.arrow 100 0 200 1)
                                 (100 + 50 / 2)))))
    by reflexivity.
  assert (Hf : 100 + 18 < 200) by reflexivity.
  assert (Hi : (0 <= 1)%Z) by discriminate.
  destruct (forward_arc_height (Scenario.arrow 100 0 200 1) _ 2 Hret Hf)
    as (r & cw & ex & ey & Harc & Htip & Hflat & _).
  eexists. exists r, cw, ex, ey.
  split; [exact Hret|]. split; [exact Hf|]. split; [exact Hi|].
  split; [exact Harc|]. split; [exact Htip | exact (Hflat Hi)].
Defined.

(** X10: every path ends with the arrow head, drawn at the tip
    [(to.x - 13, end_y)]: the commands before the head end at the tip, the
    head moves 5 left and 5 up, returns to the tip and ends 5 left and 5
    below it. *)
Theorem arrow_head_at_tip (a a' : Arrow.t) (fuel : nat) :
  Arrow.calculate_path fuel a = Some a' ->
  exists (n : nat) (ex ey : Q),
    let p := Arrow.path a' in
    length p = (n + 3)%nat
    /\ skipn n p = Arrow.arrow_head
    /\ Arrow.path_tip p = Some (ex, ey)
    /\ ex = getX (Bar.dbar (Arrow.to_task a)) - 13
    /\ Pen.same (Pen.after n p) (ex, ey)
    /\ Pen.same (Pen.after (n + 1) p) (ex - 5, ey - 5)
    /\ Pen.same (Pen.after (n + 2) p) (ex, ey)
    /\ Pen.same (Pen.after (n + 3) p) (ex - 5, ey + 5).
Proof.
  intros Hret.
  destruct (calculate_path_inv a a' fuel Hret) as (lc & Hlc & ->).
  destruct (calculate_locals_inv a fuel lc Hlc) as (k & -> & _ & _).
  unfold Arrow.path_of.
  destruct (Arrow.is_backward a).
  - unfold Arrow.backward_path.
    destruct (Arrow.backward_curve a _) as [[d1 cv] cy].
    exists 8%nat. do 2 eexists. cbv zeta.
    split; [reflexivity|]. split; [reflexivity|]. split; [reflexivity|].
    split; [reflexivity|].
    unfold Pen.after, Pen.same; simpl. repeat split; ring.
  - unfold Arrow.forward_path.
    exists 4%nat. do 2 eexists. cbv zeta.
    split; [reflexivity|]. split; [reflexivity|]. split; [reflexivity|].
    split; [reflexivity|].
    unfold Pen.after, Pen.same; simpl. repeat split; ring.
Qed.

Lemma arrow_head_at_tip_witness :
  exists (a' : Arrow.t) (n : nat) (ex ey : Q),
    Arrow.calculate_path 2 (Scenario.arrow 100 0 200 1) = Some a'
    /\ length (Arrow.path a') = (n + 3)%nat
    /\ Arrow.path_tip (Arrow.path a') = Some (ex, ey)
    /\ ex = 200 - 13
    /\ Pen.same (Pen.after (n + 3) (Arrow.path a')) (ex - 5, ey + 5).
Proof.
  assert (Hret : Arrow.calculate_path 2 (Scenario.arrow 100 0 200 1)
                 = Some (Arrow.mk Scenario.gantt
                           (Arrow.from_task (Scenario.arrow 100 0 200 1))
                           (Arrow.to_task (Scenario.arrow 100 0 200 1))
                           (Arrow.path_of (Scenario.arrow 100 0 200 1)
                              (Arrow.locals_after (Scenario.arrow 100 0 200 1)
                                 (100 + 50 / 2)))))
    by reflexivity.
  destruct (arrow_head_at_tip (Scenario.arrow 100 0 200 1) _ 2 Hret)
    as (n & ex & ey & Hlen & _ & Htip & Hex & _ & _ & _ & Hend).
  eexists. exists n, ex, ey.
  split; [exact Hret|]. split; [exact Hlen|]. split; [exact Htip|].
  split; [exact Hex | exact Hend].
Defined.

(** ** [$.attr], [createSVG] and [$.closest] *)

Lemma getAttribute_setAttribute_same (k v : string) (el : SvgUtils.attributes) :
  SvgUtils.getAttribute k (SvgUtils.setAttribute k v el) = Some v.
Proof.
  induction el as [|[k0 v0] el IH]; simpl.
  - now rewrite String.eqb_refl.
  - destruct (String.eqb k0 k) eqn:E; simpl; rewrite E; [reflexivity | exact IH].
Qed.

Lemma getAttribute_setAttribute_other (k k' v : string)
  (el : SvgUtils.attributes) :
  k' <> k ->
  SvgUtils.getAttribute k' (SvgUtils.setAttribute k v el)
  = SvgUtils.getAttribute k' el.
Proof.
  intros Hne. induction el as [|[k0 v0] el IH]; simpl.
  - assert (E : String.eqb k k' = false)
      by (apply String.eqb_neq; congruence).
    now rewrite E.
  - destruct (String.eqb k0 k) eqn:E; simpl.
    + apply String.eqb_eq in E. subst k0.
      assert (E' : String.eqb k k' = false)
        by (apply String.eqb_neq; congruence).
      now rewrite E'.
    + now rewrite IH.
Qed.

Section AttrFacts.

Variable V : Type.
Variable truthy : V -> bool.
Variable to_string : V -> string.

Local Abbreviation attr := (SvgUtils.attr V truthy to_string).


Lemma attr_object_lookup (entries : list (string * V)) :
  NoDup (map fst entries) ->
  forall (el : SvgUtils.attributes) (k : string),
    SvgUtils.getAttribute k
      (fst (attr el (SvgUtils.Object entries) None))
    = match find (fun kv => String.eqb (fst kv) k) entries with
      | Some (_, v) =>
          if truthy v then Some (to_string v) else SvgUtils.getAttribute k el
      | None => SvgUtils.getAttribute k el
      end.
Proof.
  unfold SvgUtils.attr. simpl fst.
  induction entries as [|[k0 v0] rest IH]; intros Hnd el k; [reflexivity|].
  inversion Hnd as [|? ? Hnotin Hnd']; subst.
  simpl fold_left. rewrite (IH Hnd'). simpl find. simpl fst.
  destruct (String.eqb k0 k) eqn:E.
  - apply String.eqb_eq in E. subst k0.
    assert (Hnone : find (fun kv => String.eqb (fst kv) k) rest = None).
    { destruct (find _ rest) as [[k1 v1]|] eqn:F; [|reflexivity].
      apply find_some in F. destruct F as [Hin Hk]. simpl in Hk.
      apply String.eqb_eq in Hk. subst k1.
      exfalso. apply Hnotin. apply in_map_iff. now exists (k, v1). }
    rewrite Hnone. unfold SvgUtils.attr_name_value.
    destruct (truthy v0); simpl;
      [apply getAttribute_setAttribute_same | reflexivity].
  - assert (Hsame : SvgUtils.getAttribute k
                      (fst (SvgUtils.attr_name_value V truthy to_string el k0
                              (Some v0)))
                    = SvgUtils.getAttribute k el).
    { unfold SvgUtils.attr_name_value. destruct (truthy v0); simpl;
        [|reflexivity].
      apply getAttribute_setAttribute_other.
      apply String.eqb_neq in E. congruence. }
    destruct (find _ rest) as [[k1 v1]|]; [|exact Hsame].
    destruct (truthy v1); [reflexivity | exact Hsame].
Qed.


End AttrFacts.



Section CreateFacts.

Variable V : Type.
Variable to_string : V -> string.
Variable P : Type.
Variable as_parent : V -> option P.
Variable valid_name : string -> bool.

Local Abbreviation createSVG :=
  (SvgUtils.createSVG V to_string P as_parent valid_name).
Local Abbreviation loop :=
  (SvgUtils.createSVG_loop V to_string P as_parent valid_name).
Local Abbreviation step :=
  (SvgUtils.createSVG_step V to_string P as_parent valid_name).

Lemma createSVG_step_keeps
  (e e' : SvgUtils.element P) (k0 : string) (v0 : V) (k : string) :
  step e (k0, v0) = Some e' ->
  k <> k0 -> k <> "clip-path"%string ->
  SvgUtils.getAttribute k (SvgUtils.attrs P e')
  = SvgUtils.getAttribute k (SvgUtils.attrs P e).
Proof.
  unfold SvgUtils.createSVG_step. intros H Hk Hclip.
  destruct (String.eqb k0 "append_to").
  - destruct (as_parent v0); [|discriminate].
    injection H as <-. reflexivity.
  - destruct (String.eqb k0 "innerHTML").
    + injection H as <-. reflexivity.
    + destruct (String.eqb k0 "clipPath").
      * injection H as <-. simpl.
        now apply getAttribute_setAttribute_other.
      * destruct (valid_name k0); [|discriminate].
        injection H as <-. simpl.
        now apply getAttribute_setAttribute_other.
Qed.

Lemma createSVG_step_tag
  (e e' : SvgUtils.element P) (k0 : string) (v0 : V) :
  step e (k0, v0) = Some e' ->
  SvgUtils.tag P e' = SvgUtils.tag P e.
Proof.
  unfold SvgUtils.createSVG_step. intros H.
  destruct (String.eqb k0 "append_to").
  - destruct (as_parent v0); [|discriminate]. injection H as <-. reflexivity.
  - destruct (String.eqb k0 "innerHTML"); [injection H as <-; reflexivity|].
    destruct (String.eqb k0 "clipPath"); [injection H as <-; reflexivity|].
    destruct (valid_name k0); [|discriminate]. injection H as <-. reflexivity.
Qed.

Lemma createSVG_step_special
  (e e' : SvgUtils.element P) (k0 : string) (v0 : V) (k : string) :
  step e (k0, v0) = Some e' ->
  SvgUtils.special_key k ->
  SvgUtils.getAttribute k (SvgUtils.attrs P e')
  = SvgUtils.getAttribute k (SvgUtils.attrs P e).
Proof.
  unfold SvgUtils.createSVG_step. intros H Hk.
  destruct (String.eqb k0 "append_to") eqn:E1.
  - destruct (as_parent v0); [|discriminate]. injection H as <-. reflexivity.
  - destruct (String.eqb k0 "innerHTML") eqn:E2.
    + injection H as <-. reflexivity.
    + destruct (String.eqb k0 "clipPath") eqn:E3.
      * injection H as <-. simpl. apply getAttribute_setAttribute_other.
        destruct Hk as [-> | [-> | ->]]; discriminate.
      * destruct (valid_name k0); [|discriminate].
        injection H as <-. simpl. apply getAttribute_setAttribute_other.
        apply String.eqb_neq in E1, E2, E3.
        destruct Hk as [-> | [-> | ->]]; congruence.
Qed.

Lemma createSVG_loop_special (entries : list (string * V)) :
  forall (e e' : SvgUtils.element P) (k : string),
    loop entries e = Some e' ->
    SvgUtils.special_key k ->
    SvgUtils.tag P e' = SvgUtils.tag P e
    /\ SvgUtils.getAttribute k (SvgUtils.attrs P e')
       = SvgUtils.getAttribute k (SvgUtils.attrs P e).
Proof.
  induction entries as [|[k0 v0] rest IH]; intros e e' k H Hk;
    cbn [SvgUtils.createSVG_loop] in H.
  - injection H as <-. split; reflexivity.
  - destruct (step e (k0, v0)) as [e1|] eqn:S1; [|discriminate].
    destruct (IH e1 e' k H Hk) as [Ht Ha].
    rewrite Ht, Ha. split.
    + exact (createSVG_step_tag e e1 k0 v0 S1).
    + exact (createSVG_step_special e e1 k0 v0 k S1 Hk).
Qed.

Lemma createSVG_loop_other (entries : list (string * V)) :
  forall (e e' : SvgUtils.element P) (k : string),
    loop entries e = Some e' ->
    ~ In k (map fst entries) -> k <> "clip-path"%string ->
    SvgUtils.getAttribute k (SvgUtils.attrs P e')
    = SvgUtils.getAttribute k (SvgUtils.attrs P e).
Proof.
  induction entries as [|[k0 v0] rest IH]; intros e e' k H Hnot Hclip;
    cbn [SvgUtils.createSVG_loop] in H.
  - injection H as <-. reflexivity.
  - destruct (step e (k0, v0)) as [e1|] eqn:S1; [|discriminate].
    rewrite (IH e1 e' k H); [| intros Hin; apply Hnot; now right | exact Hclip].
    apply (createSVG_step_keeps e e1 k0 v0 k S1); [|exact Hclip].
    intros ->. apply Hnot. now left.
Qed.

Lemma createSVG_loop_sets (entries : list (string * V)) :
  NoDup (map fst entries) ->
  forall (e e' : SvgUtils.element P) (k : string) (v : V),
    loop entries e = Some e' ->
    In (k, v) entries -> ~ SvgUtils.special_key k -> k <> "clip-path"%string ->
    valid_name k = true
    /\ SvgUtils.getAttribute k (SvgUtils.attrs P e') = Some (to_string v).
Proof.
  induction entries as [|[k0 v0] rest IH]; intros Hnd e e' k v H Hin Hk Hclip;
    [destruct Hin|].
  inversion Hnd as [|? ? Hnotin Hnd']; subst.
  cbn [SvgUtils.createSVG_loop] in H.
  destruct (step e (k0, v0)) as [e1|] eqn:S1; [|discriminate].
  destruct Hin as [Heq | Hin].
  - injection Heq as -> ->.
    rewrite (createSVG_loop_other rest e1 e' k H Hnotin Hclip).
    unfold SvgUtils.createSVG_step in S1.
    assert (E1 : String.eqb k "append_to" = false)
      by (apply String.eqb_neq; intros ->; apply Hk; left; reflexivity).
    assert (E2 : String.eqb k "innerHTML" = false)
      by (apply String.eqb_neq; intros ->; apply Hk; right; left; reflexivity).
    assert (E3 : String.eqb k "clipPath" = false)
      by (apply String.eqb_neq; intros ->; apply Hk; right; right;
          reflexivity).
    rewrite E1, E2, E3 in S1.
    destruct (valid_name k); [|discriminate].
    injection S1 as <-. simpl. split; [reflexivity|].
    apply getAttribute_setAttribute_same.
  - now apply (IH Hnd' e1 e' k v).
Qed.

Lemma createSVG_loop_throws (entries : list (string * V)) :
  forall (e : SvgUtils.element P) (k : string) (v : V),
    In (k, v) entries ->
    step e (k, v) = None ->
    (forall e1 e2, step e1 (k, v) = None -> step e2 (k, v) = None) ->
    loop entries e = None.
Proof.
  induction entries as [|[k0 v0] rest IH]; intros e k v Hin Hfail Hany;
    [destruct Hin|].
  cbn [SvgUtils.createSVG_loop].
  destruct (step e (k0, v0)) as [e1|] eqn:S1; [|reflexivity].
  destruct Hin as [Heq | Hin].
  - injection Heq as -> ->. congruence.
  - apply (IH e1 k v Hin); [|exact Hany]. exact (Hany e e1 Hfail).
Qed.

(** X13: [createSVG] throws when an [append_to] entry is no node to append
    to, and when a key other than [append_to], [innerHTML] and [clipPath] is
    no name [setAttribute] accepts.  An element it returns has the tag asked
    for and no attribute named [append_to], [innerHTML] or [clipPath]; every
    other entry of the object (its keys distinct) whose key is not
    [clip-path] has a valid name and is an attribute with the entry's value
    as a string, also when that value is falsy. *)
Theorem createSVG_attributes (tg : string) (entries : list (string * V)) :
  ((exists v, In ("append_to"%string, v) entries /\ as_parent v = None) ->
   createSVG tg entries = None)
  /\ ((exists k v, In (k, v) entries /\ ~ SvgUtils.special_key k
                   /\ valid_name k = false) ->
      createSVG tg entries = None)
  /\ forall e : SvgUtils.element P,
       createSVG tg entries = Some e ->
       SvgUtils.tag P e = tg
       /\ (forall k, SvgUtils.special_key k ->
             SvgUtils.getAttribute k (SvgUtils.attrs P e) = None)
       /\ (NoDup (map fst entries) ->
           forall k v, In (k, v) entries ->
             ~ SvgUtils.special_key k -> k <> "clip-path"%string ->
             valid_name k = true
             /\ SvgUtils.getAttribute k (SvgUtils.attrs P e)
                = Some (to_string v)).
Proof.
  unfold SvgUtils.createSVG. split; [|split].
  - intros (v & Hin & Hv).
    apply (createSVG_loop_throws entries _ "append_to"%string v Hin);
      unfold SvgUtils.createSVG_step; simpl; rewrite Hv; reflexivity.
  - intros (k & v & Hin & Hk & Hv).
    assert (E1 : String.eqb k "append_to" = false)
      by (apply String.eqb_neq; intros ->; apply Hk; left; reflexivity).
    assert (E2 : String.eqb k "innerHTML" = false)
      by (apply String.eqb_neq; intros ->; apply Hk; right; left; reflexivity).
    assert (E3 : String.eqb k "clipPath" = false)
      by (apply String.eqb_neq; intros ->; apply Hk; right; right;
          reflexivity).
    apply (createSVG_loop_throws entries _ k v Hin);
      unfold SvgUtils.createSVG_step; rewrite E1, E2, E3, Hv; reflexivity.
  - intros e He. split; [|split].
    + now destruct (createSVG_loop_special entries _ e "append_to"%string He
                      (or_introl eq_refl)).
    + intros k Hk.
      now destruct (createSVG_loop_special entries _ e k He Hk) as [_ ->].
    + intros Hnd k v Hin Hk Hclip.
      exact (createSVG_loop_sets entries Hnd _ e k v He Hin Hk Hclip).
Qed.

End CreateFacts.

Lemma createSVG_attributes_witness :
  let to_string := fun s : string => s in
  let as_parent := fun s : string =>
    if String.eqb s "layer"%string then Some 1%nat else None in
  let valid_name := fun s : string => negb (String.eqb s ""%string) in
  (exists e : SvgUtils.element nat,
     SvgUtils.createSVG string to_string nat as_parent valid_name
       "rect"%string
       [ ("x", "0"); ("clipPath", "c1"); ("append_to", "layer") ]%string
     = Some e
     /\ SvgUtils.tag nat e = "rect"%string
     /\ SvgUtils.getAttribute "x"%string (SvgUtils.attrs nat e)
        = Some "0"%string
     /\ SvgUtils.getAttribute "append_to"%string (SvgUtils.attrs nat e)
        = None)
  /\ SvgUtils.createSVG string to_string nat as_parent valid_name
       "rect"%string [ ("x", "0"); ("append_to", "7") ]%string
     = None
  /\ SvgUtils.createSVG string to_string nat as_parent valid_name
       "rect"%string [ ("x", "0"); ("", "1") ]%string
     = None.
Proof.
  cbv zeta.
  destruct (createSVG_attributes string (fun s : string => s) nat
              (fun s : string =>
                 if String.eqb s "layer"%string then Some 1%nat else None)
              (fun s : string => negb (String.eqb s ""%string))
              "rect"%string
              [ ("x", "0"); ("clipPath", "c1"); ("append_to", "layer") ]%string)
    as (_ & _ & Hok).
  destruct (createSVG_attributes string (fun s : string => s) nat
              (fun s : string =>
                 if String.eqb s "layer"%string then Some 1%nat else None)
              (fun s : string => negb (String.eqb s ""%string))
              "rect"%string [ ("x", "0"); ("append_to", "7") ]%string)
    as (Hnode & _ & _).
  destruct (createSVG_attributes string (fun s : string => s) nat
              (fun s : string =>
                 if String.eqb s "layer"%string then Some 1%nat else None)
              (fun s : string => negb (String.eqb s ""%string))
              "rect"%string [ ("x", "0"); ("", "1") ]%string)
    as (_ & Hname & _).
  split; [|split].
  - eexists. split; [reflexivity|].
    destruct (Hok _ eq_refl) as (Htag & Hspecial & Hset).
    assert (Hnd : NoDup (map fst [ ("x", "0"); ("clipPath", "c1");
                                   ("append_to", "layer") ]%string)).
    { simpl. constructor; [|constructor; [|constructor; [|constructor]]].
      - intros [H | [H | []]]; discriminate H.
      - intros [H | []]; discriminate H.
      - intros []. }
    assert (Hx : ~ SvgUtils.special_key "x"%string)
      by (intros [H | [H | H]]; discriminate H).
    assert (Hc : "x"%string <> "clip-path"%string) by discriminate.
    split; [exact Htag|]. split.
    + exact (proj2 (Hset Hnd "x"%string "0"%string (or_introl eq_refl) Hx Hc)).
    + exact (Hspecial "append_to"%string (or_introl eq_refl)).
  - apply Hnode. exists "7"%string.
    split; [right; left; reflexivity | reflexivity].
  - apply Hname. exists ""%string, "1"%string.
    split; [right; left; reflexivity|].
    split; [intros [H | [H | H]]; discriminate H | reflexivity].
Defined.

Section ClosestFacts.

Variable D : Type.
Variable S : Type.
Variable matches : S -> SvgUtils.node D -> bool.

Local Abbreviation closest := (SvgUtils.closest D S matches).

(** X14: what [$.closest] finds is the nearest element, from the given one
    upwards, that matches the selector: it matches, and no element before it
    on the way up does. *)
Theorem closest_finds_nearest_match
  (selector : S) (element m : SvgUtils.node D) :
  closest selector element = SvgUtils.Found m ->
  exists before after : list (SvgUtils.node D),
    SvgUtils.ancestors D element = before ++ m :: after
    /\ matches selector m = true
    /\ Forall (fun n => matches selector n = false) before.
Proof.
  induction element as [ | | | d parentNode IH]; simpl; try discriminate.
  destruct (matches selector (SvgUtils.Elem d parentNode)) eqn:M.
  - intros H. injection H as <-.
    exists [], (SvgUtils.ancestors D parentNode).
    split; [reflexivity|]. split; [exact M | constructor].
  - intros H. destruct (IH H) as (before & after & Hanc & Hm & Hbefore).
    exists (SvgUtils.Elem d parentNode :: before), after.
    split; [simpl; now rewrite Hanc|]. split; [exact Hm|].
    constructor; assumption.
Qed.

(** X15: when no element on the way up matches, [$.closest] returns [null]
    exactly when the chain of parents ends in [null]; when it ends in the
    document, a document fragment or a shadow root, the recursion reaches
    that node, which has no [matches], and ends in a [TypeError]. *)
Theorem closest_without_match (selector : S) (element : SvgUtils.node D) :
  (closest selector element = SvgUtils.NotFound <->
   SvgUtils.top D element = SvgUtils.Null
   /\ Forall (fun n => matches selector n = false)
             (SvgUtils.ancestors D element))
  /\ (closest selector element = SvgUtils.TypeError <->
      SvgUtils.top D element <> SvgUtils.Null
      /\ Forall (fun n => matches selector n = false)
                (SvgUtils.ancestors D element)).
Proof.
  induction element as [ | | | d parentNode [IHnull IHerr]]; simpl.
  - split; split.
    + intros _. split; [reflexivity | constructor].
    + reflexivity.
    + discriminate.
    + intros [H _]. now contradiction H.
  - split; split.
    + discriminate.
    + intros [H _]. discriminate H.
    + intros _. split; [discriminate | constructor].
    + reflexivity.
  - split; split.
    + discriminate.
    + intros [H _]. discriminate H.
    + intros _. split; [discriminate | constructor].
    + reflexivity.
  - destruct (matches selector (SvgUtils.Elem d parentNode)) eqn:M.
    + split; split; try discriminate;
        intros [_ H]; inversion H; congruence.
    + split.
      * rewrite IHnull. split; intros [Hd Hall]; (split; [exact Hd|]).
        -- constructor; assumption.
        -- now inversion Hall.
      * rewrite IHerr. split; intros [Hd Hall]; (split; [exact Hd|]).
        -- constructor; assumption.
        -- now inversion Hall.
Qed.

End ClosestFacts.

Lemma closest_without_match_witness :
  let matches := fun (sel : nat) (n : SvgUtils.node nat) =>
    match n with
    | SvgUtils.Elem d _ => Nat.eqb d sel
    | _ => false
    end in
  SvgUtils.closest nat nat matches 9%nat
    (SvgUtils.Elem 3%nat (SvgUtils.Elem 2%nat SvgUtils.Fragment))
  = SvgUtils.TypeError
  /\ SvgUtils.closest nat nat matches 9%nat
       (SvgUtils.Elem 3%nat (SvgUtils.Elem 2%nat SvgUtils.Null))
     = SvgUtils.NotFound.
Proof.
  cbv zeta. split.
  - apply (proj2 (closest_without_match nat nat
                    (fun (sel : nat) (n : SvgUtils.node nat) =>
                       match n with
                       | SvgUtils.Elem d _ => Nat.eqb d sel
                       | _ => false
                       end)
                    9%nat
                    (SvgUtils.Elem 3%nat
                       (SvgUtils.Elem 2%nat SvgUtils.Fragment)))).
    split; [discriminate | repeat constructor].
  - apply (proj1 (closest_without_match nat nat
                    (fun (sel : nat) (n : SvgUtils.node nat) =>
                       match n with
                       | SvgUtils.Elem d _ => Nat.eqb d sel
                       | _ => false
                       end)
                    9%nat
                    (SvgUtils.Elem 3%nat (SvgUtils.Elem 2%nat SvgUtils.Null)))).
    split; [reflexivity | repeat constructor].
Defined.

Lemma closest_finds_nearest_match_witness :
  let matches := fun (sel : nat) (n : SvgUtils.node nat) =>
    match n with
    | SvgUtils.Elem d _ => Nat.eqb d sel
    | _ => false
    end in
  let bar := SvgUtils.Elem 2%nat (SvgUtils.Elem 1%nat SvgUtils.Document) in
  let handle := SvgUtils.Elem 3%nat bar in
  SvgUtils.closest nat nat matches 2%nat handle = SvgUtils.Found bar
  /\ exists before after,
       SvgUtils.ancestors nat handle = before ++ bar :: after
       /\ matches 2%nat bar = true
       /\ Forall (fun n => matches 2%nat n = false) before.
Proof.
  cbv zeta. split; [reflexivity|].
  exact (closest_finds_nearest_match nat nat
           (fun (sel : nat) (n : SvgUtils.node nat) =>
              match n with
              | SvgUtils.Elem d _ => Nat.eqb d sel
              | _ => false
              end)
           2%nat
           (SvgUtils.Elem 3%nat
              (SvgUtils.Elem 2%nat (SvgUtils.Elem 1%nat SvgUtils.Document)))
           (SvgUtils.Elem 2%nat (SvgUtils.Elem 1%nat SvgUtils.Document))
           eq_refl).
Defined.

(** ** The decade labels of the Year view *)

(** X16: for a year that is not negative, [getDecade] is the multiple of 10
    with [decade <= year < decade + 10]; and in the Year view, whose columns
    are consecutive years, the upper text of a column is not empty exactly
    when its year is a multiple of 10 (while the first column, with no date
    before it, always carries its decade). *)
Theorem year_view_labels_decades (year : Z) :
  (0 <= year)%Z ->
  (Defaults.getDecade year mod 10 = 0)%Z
  /\ (Defaults.getDecade year <= year < Defaults.getDecade year + 10)%Z
  /\ Defaults.year_upper_text year None = Some (Defaults.getDecade year)
  /\ (Defaults.year_upper_text (year + 1) (Some year) <> None
      <-> ((year + 1) mod 10 = 0)%Z)
  /\ (((year + 1) mod 10 = 0)%Z ->
      Defaults.year_upper_text (year + 1) (Some year) = Some (year + 1)%Z).
Proof.
  intros Hy. unfold Defaults.year_upper_text, Defaults.getDecade.
  rewrite !Z.rem_mod_nonneg by lia.
  pose proof (Z.mod_pos_bound year 10 ltac:(lia)) as Hm.
  pose proof (Z.mod_pos_bound (year + 1) 10 ltac:(lia)) as Hm1.
  pose proof (Z.div_mod year 10 ltac:(lia)) as Hd.
  pose proof (Z.div_mod (year + 1) 10 ltac:(lia)) as Hd1.
  split.
  { replace (year - year mod 10)%Z with (year / 10 * 10)%Z by lia.
    apply Z.mod_mul. lia. }
  split; [lia|]. split; [reflexivity|].
  destruct (Z.eqb_spec (year + 1 - (year + 1) mod 10) (year - year mod 10))
    as [Heq | Hne]; simpl.
  - split.
    + split; [congruence|]. intros H0. exfalso. lia.
    + intros H0. exfalso. lia.
  - split.
    + split; [|discriminate]. intros _.
      assert (Hcase : ((year + 1) mod 10 = 0
                       \/ (year + 1) mod 10 = year mod 10 + 1)%Z).
      { destruct (Z.eq_dec (year mod 10) 9) as [H9 | H9].
        - left. rewrite Z.add_mod by lia. rewrite H9. reflexivity.
        - right. rewrite Z.add_mod by lia.
          rewrite (Z.mod_small 1 10) by lia. apply Z.mod_small. lia. }
      destruct Hcase as [H0 | H1]; [exact H0 | exfalso; lia].
    + intros H0. f_equal. lia.
Qed.

Lemma year_view_labels_decades_witness :
  (0 <= 2029)%Z
  /\ Defaults.getDecade 2029 = 2020%Z
  /\ Defaults.year_upper_text (2029 + 1) (Some 2029%Z) = Some 2030%Z.
Proof.
  assert (Hy : (0 <= 2029)%Z) by discriminate.
  destruct (year_view_labels_decades 2029 Hy) as (_ & _ & _ & _ & Hlabel).
  split; [exact Hy|]. split; [reflexivity | exact (Hlabel eq_refl)].
Defined.
